(** * launch_aws.py: the Launcher lifecycle (setup, deploy, teardown)

    A shallow embedding of [src/launch_aws.py], a Python 2 script.  The
    script is a linear orchestration of external collaborators (the EC2
    API, a socket, an SSH and SCP channel, an HTTP status endpoint, the
    local file system and the signals of the process).  The program is
    written in a state-and-exception monad over a [world] that holds the
    Launcher object, the one mutable local of [deploy] and the record of
    everything the program did.

    - Every call on a collaborator is an event of the record and can
      raise: its outcome is drawn from the environment [Env].  [print] and
      the closes at the end of the [with] blocks are taken not to raise.
      Neither is the construction of the local objects, which is not
      recorded: the socket of a probe and its timeout, the SSH client and
      its host-key policy.
    - The two [while True] loops take fuel; a loop that is still running
      when the fuel is used up has outcome [Spin], which no [except] and no
      [finally] clause sees.
    - A termination or interrupt signal is delivered while the main flow
      is at one of its calls, once the handlers are installed: the handler
      runs first, and an exception it raises surfaces in the main flow at
      that call.
    - JSON numbers are integers; floats are left out. *)

From Stdlib Require Import List String Ascii ZArith Bool Arith Lia.
From Stdlib Require Import DecimalString DecimalPos DecimalZ.
Import ListNotations.
Open Scope list_scope.
Open Scope string_scope.

Set Implicit Arguments.

(** ** Python values and exceptions *)

(** The exception classes the script can meet.  [SystemExit] and
    [KeyboardInterrupt] derive from [BaseException] only: a bare [except:]
    catches them, [except Exception] does not. *)
Inductive exn_class :=
| AttributeError | KeyError | TypeError | ValueError
| ClientError | IOError | OSError | SocketError | ConnectionError
| SSHException | SCPException
| SystemExit | KeyboardInterrupt.

Inductive exn := Exn (c : exn_class) (msg : string).

Definition exn_cls (e : exn) : exn_class := let (c, _) := e in c.

(** [str(e)] *)
Definition str_of_exn (e : exn) : string := let (_, m) := e in m.

(** [isinstance(e, Exception)] *)
Definition is_Exception (e : exn) : bool :=
  match exn_cls e with
  | SystemExit | KeyboardInterrupt => false
  | _ => true
  end.

(** What [r.json()] can return. *)
#[local] Unset Elimination Schemes.
Inductive pyval :=
| PNone
| PBool (b : bool)
| PInt (z : Z)
| PStr (s : string)
| PList (l : list pyval)
| PDict (items : list (string * pyval)).
#[local] Set Elimination Schemes.

Definition type_name (v : pyval) : string :=
  match v with
  | PNone => "NoneType" | PBool _ => "bool" | PInt _ => "int"
  | PStr _ => "unicode" | PList _ => "list" | PDict _ => "dict"
  end.

(** Outcome of evaluating a Python expression or statement.  [Spin] is
    the outcome of a [while True] loop that is still running when the
    fuel given to the model is used up. *)
Inductive res (A : Type) :=
| Val (a : A)
| Exc (e : exn)
| Spin.
Arguments Exc {A} e.
Arguments Spin {A}.

Fixpoint lookup (k : string) (items : list (string * pyval)) : option pyval :=
  match items with
  | [] => None
  | (k', v) :: rest => if String.eqb k k' then Some v else lookup k rest
  end.

(** [v[k]] for a string key [k]. *)
Definition getitem (v : pyval) (k : string) : res pyval :=
  match v with
  | PDict items =>
      match lookup k items with
      | Some x => Val x
      | None => Exc (Exn KeyError k)
      end
  | PList _ => Exc (Exn TypeError "list indices must be integers, not str")
  | PStr _ => Exc (Exn TypeError "string indices must be integers")
  | _ => Exc (Exn TypeError
                ("'" ++ type_name v ++ "' object has no attribute '__getitem__'"))
  end.

(** [len(v)] *)
Definition py_len (v : pyval) : res nat :=
  match v with
  | PStr s => Val (String.length s)
  | PList l => Val (List.length l)
  | PDict items => Val (List.length items)
  | _ => Exc (Exn TypeError
                ("object of type '" ++ type_name v ++ "' has no len()"))
  end.

(** [v[n:]] *)
Definition slice_from (v : pyval) (n : nat) : res pyval :=
  match v with
  | PList l => Val (PList (skipn n l))
  | PStr s => Val (PStr (substring n (String.length s - n) s))
  | PDict _ => Exc (Exn TypeError "unhashable type")
  | _ => Exc (Exn TypeError
                ("'" ++ type_name v ++ "' object has no attribute '__getitem__'"))
  end.

Fixpoint chars (s : string) : list pyval :=
  match s with
  | EmptyString => []
  | String c rest => PStr (String c EmptyString) :: chars rest
  end.

(** The items a [for] loop draws from [v]. *)
Definition py_iter (v : pyval) : res (list pyval) :=
  match v with
  | PList l => Val l
  | PStr s => Val (chars s)
  | PDict items => Val (map (fun kv => PStr (fst kv)) items)
  | _ => Exc (Exn TypeError ("'" ++ type_name v ++ "' object is not iterable"))
  end.

(** [a + b] where [b] is known to be a string. *)
Definition add_str (a : pyval) (b : string) : res string :=
  match a with
  | PStr s => Val (s ++ b)
  | _ => Exc (Exn TypeError "unsupported operand type(s) for +")
  end.

(** [a + b] where [a] is known to be a string. *)
Definition str_add (a : string) (b : pyval) : res string :=
  match b with
  | PStr s => Val (a ++ s)
  | _ => Exc (Exn TypeError
                ("cannot concatenate 'str' and '" ++ type_name b ++ "' objects"))
  end.

(** Truth value of [v] in an [if]. *)
Definition truthy (v : pyval) : bool :=
  match v with
  | PNone => false
  | PBool b => b
  | PInt z => negb (Z.eqb z 0)
  | PStr s => negb (String.eqb s "")
  | PList l => match l with [] => false | _ => true end
  | PDict items => match items with [] => false | _ => true end
  end.

Definition lower_ascii (c : ascii) : ascii :=
  let n := nat_of_ascii c in
  if andb (Nat.leb 65 n) (Nat.leb n 90) then ascii_of_nat (n + 32) else c.

(** [s.lower()] *)
Fixpoint lower (s : string) : string :=
  match s with
  | EmptyString => EmptyString
  | String c rest => String (lower_ascii c) (lower rest)
  end.

(** [str(n)] for an integer. *)
Definition str_of_int (z : Z) : string := NilZero.string_of_int (Z.to_int z).

Fixpoint spaces (n : nat) : string :=
  match n with
  | O => EmptyString
  | S k => String " " (spaces k)
  end.

(** ** The external collaborators *)

(** One entry of [IpPermissions]. *)
Record IpPermission := {
  IpProtocol : string;
  FromPort : Z;
  ToPort : Z;
  IpRanges : list string  (* the CidrIp of each range *)
}.

Record InstanceRequest := {
  ImageId : string;
  InstanceType : string;
  InstanceInitiatedShutdownBehavior : string;
  MinCount : Z;
  MaxCount : Z;
  SecurityGroupIds : list string;
  KeyName : string
}.

(** The resource handles boto3 hands back. *)
Record KeyPair := { key_name : string; key_material : string }.
Record SecurityGroup := { group_id : string }.
Record Instance := { instance_id : string }.

(** Every call the script makes on a collaborator; each one can raise. *)
Inductive call :=
| Boto3Resource (service : string)
| CreateKeyPair (name : string)
| FileOpen (path mode : string)
| FileWrite (path data : string)
| Chmod (path : string) (mode : Z)
| CreateSecurityGroup (name description : string)
| AuthorizeIngress (g : SecurityGroup) (perms : list IpPermission)
| CreateInstances (rq : InstanceRequest)
| WaitUntilRunning (i : Instance)
| DescribeInstance (id : string)
| SocketConnect (host : string) (port : Z) (timeout : Z)
| Sleep (seconds : Z)
| SshConnect (hostname : string) (port : Z) (username key_filename : string)
| ScpOpen
| ScpPut (files : list string) (remote_path : string) (recursive : bool)
| SshExec (command : string)
| HttpGet (url : string)
| ScpGet (remote_path local_path : string) (recursive : bool)
| InstanceTerminate (i : Instance)
| WaitUntilTerminated (i : Instance)
| SecurityGroupDelete (g : SecurityGroup)
| KeyPairDelete (k : KeyPair)
| OsRemove (path : string).

Inductive method := Msetup | Mdeploy | Mteardown.

Inductive signal := SIGTERM | SIGINT.

(** What the program did, in the order it did it.  [Enter] marks the
    invocation of a Launcher method; [PrintEntry pos line] is the [print]
    of the polling loop, [pos] being the index in [json['logs']] of the
    entry printed; [Call c o] is a call with its outcome ([None]: it
    returned); the closes are the cleanups of the [with] blocks and of the
    probing socket. *)
Inductive event :=
| Enter (m : method)
| Print (line : string)
| PrintEntry (pos : nat) (line : string)
| Call (c : call) (o : option exn)
| Input (prompt answer : string)
| InstallHandler (s : signal)
| FileClose (path : string)
| SocketClose
| ScpClose.

(** The environment of one run.  [outcome n c] is what happens to call [c]
    when it is the [n]-th call of the run; [status k] is the body of the
    [k]-th answer of the status endpoint, parsed ([None]: not JSON);
    [signal_at n c = Some a] delivers a termination or interrupt signal
    while the program is about to make its [n]-th call [c], and the operator
    then types [a] at the prompt. *)
Record Env := {
  now : Z;                         (* int(time.time()) *)
  new_key_material : string;
  new_group_id : string;
  new_instance_id : string;
  public_ip : option string;       (* None: the instance has no public address *)
  outcome : nat -> call -> option exn;
  status : nat -> option pyval;
  signal_at : nat -> call -> option string
}.

(** ** The Launcher object and the world *)

Record Launcher := {
  timestamp : string;
  key : option KeyPair;
  security_group : option SecurityGroup;
  instance : option Instance;
  ip_address : option string
}.

Record world := {
  self : Launcher;
  log_count : nat;          (* the local of [deploy] *)
  events : list event;      (* newest first *)
  tick : nat;               (* calls made so far *)
  gets : nat                (* answers received from the status endpoint *)
}.

Definition trace (w : world) : list event := rev (events w).

Definition M (A : Type) : Type := world -> res A * world.

Definition ret {A} (a : A) : M A := fun w => (Val a, w).

Definition raise {A} (e : exn) : M A := fun w => (Exc e, w).

Definition bind {A B} (m : M A) (k : A -> M B) : M B :=
  fun w =>
    match m w with
    | (Val a, w') => k a w'
    | (Exc e, w') => (Exc e, w')
    | (Spin, w') => (Spin, w')
    end.

Declare Scope py_scope.
Delimit Scope py_scope with py.
Notation "x <- m ;; k" := (bind m (fun x => k))
  (at level 100, m at next level, right associativity) : py_scope.
Notation "m ;; k" := (bind m (fun _ => k))
  (at level 100, right associativity) : py_scope.
Open Scope py_scope.

(** Lift the outcome of a pure expression. *)
Definition eval {A} (r : res A) : M A := fun w => (r, w).

(** [try: body / except: handler] *)
Definition try_except {A} (body : M A) (handler : M A) : M A :=
  fun w =>
    match body w with
    | (Exc _, w') => handler w'
    | r => r
    end.

(** [try: body / except Exception as e: handler e] *)
Definition try_except_Exception {A} (body : M A) (handler : exn -> M A) : M A :=
  fun w =>
    match body w with
    | (Exc e, w') => if is_Exception e then handler e w' else (Exc e, w')
    | r => r
    end.

(** [try: body / finally: final].  A body that is still looping never
    reaches the [finally] clause. *)
Definition try_finally {A} (body : M A) (final : M unit) : M A :=
  fun w =>
    match body w with
    | (Val a, w') => (_ <- final ;; ret a) w'
    | (Exc e, w') => (_ <- final ;; raise e) w'
    | (Spin, w') => (Spin, w')
    end.

Definition emit (e : event) : M unit :=
  fun w => (Val tt, {| self := self w; log_count := log_count w;
                       events := e :: events w; tick := tick w;
                       gets := gets w |}).

Definition print (line : string) : M unit := emit (Print line).

Definition enter (m : method) : M unit := emit (Enter m).

Definition get_self : M Launcher := fun w => (Val (self w), w).

Definition set_self (l : Launcher) : M unit :=
  fun w => (Val tt, {| self := l; log_count := log_count w;
                       events := events w; tick := tick w; gets := gets w |}).

Definition get_log_count : M nat := fun w => (Val (log_count w), w).

Definition set_log_count (n : nat) : M unit :=
  fun w => (Val tt, {| self := self w; log_count := n;
                       events := events w; tick := tick w; gets := gets w |}).

(** [o.name] where [o] is a field that may still hold [None]. *)
Definition attr {A} (o : option A) (name : string) : M A :=
  match o with
  | Some a => ret a
  | None => raise (Exn AttributeError
                     ("'NoneType' object has no attribute '" ++ name ++ "'"))
  end.

(** [self.ip_address] where a string is required (an operand of [+], a
    host name): [None] raises [TypeError]. *)
Definition str_operand (o : option string) : M string :=
  match o with
  | Some s => ret s
  | None => raise (Exn TypeError
                     "cannot concatenate 'str' and 'NoneType' objects")
  end.

Section Program.

Variable env : Env.

(** A call on a collaborator, signals apart. *)
Definition raw_call (c : call) : M unit :=
  fun w =>
    let o := outcome env (tick w) c in
    let w' := {| self := self w; log_count := log_count w;
                 events := Call c o :: events w; tick := S (tick w);
                 gets := gets w |} in
    match o with
    | None => (Val tt, w')
    | Some e => (Exc e, w')
    end.

(** ** teardown

    [do] is how the calls are made: with signals considered in the main
    flow, without inside the handler. *)

Definition teardown_with (do : call -> M unit) : M unit :=
  enter Mteardown ;;
  print "- terminating instance" ;;
  l <- get_self ;;
  i <- attr (instance l) "terminate" ;;
  do (InstanceTerminate i) ;;
  l <- get_self ;;
  i <- attr (instance l) "wait_until_terminated" ;;
  do (WaitUntilTerminated i) ;;
  print "- deleting security group" ;;
  l <- get_self ;;
  g <- attr (security_group l) "delete" ;;
  do (SecurityGroupDelete g) ;;
  print "- deleting SSH key" ;;
  l <- get_self ;;
  k <- attr (key l) "delete" ;;
  do (KeyPairDelete k) ;;
  l <- get_self ;;
  do (OsRemove (timestamp l ++ ".pem")).

(** ** signal_term_handler

    [func] is the bound method [launcher.teardown].  While the handler
    runs, further signals are not considered. *)
Definition sys_exit (code : Z) : M unit :=
  raise (Exn SystemExit (str_of_int code)).

Definition raw_input (prompt answer : string) : M string :=
  emit (Input prompt answer) ;; ret answer.

Definition signal_term_handler (func : M unit) (answer : string) : M unit :=
  choice <- raw_input "Are you sure you want to exit? (y or n): " answer ;;
  if String.eqb (lower choice) "y" then
    print "tearing down" ;;
    func ;;
    sys_exit 0
  else ret tt.

(** A call made by the main flow once the handlers are installed: a signal
    delivered at that point runs the handler first, and what the handler
    raises surfaces in the main flow in place of the call. *)
Definition call_ (c : call) : M unit :=
  fun w =>
    match signal_at env (tick w) c with
    | Some answer =>
        (signal_term_handler (teardown_with raw_call) answer ;; raw_call c) w
    | None => raw_call c w
    end.

Definition teardown : M unit := teardown_with call_.

(** ** Launcher.__init__

    Runs before the handlers are installed. *)
Definition blank : Launcher :=
  {| timestamp := ""; key := None; security_group := None;
     instance := None; ip_address := None |}.

Definition Launcher_init : M unit :=
  l <- get_self ;;
  set_self {| timestamp := "openquake-" ++ str_of_int (now env);
              key := key l; security_group := security_group l;
              instance := instance l; ip_address := ip_address l |} ;;
  raw_call (Boto3Resource "ec2") ;;
  l <- get_self ;;
  set_self {| timestamp := timestamp l;
              key := None; security_group := None;
              instance := None; ip_address := None |}.

(** ** setup *)

Definition set_key (k : KeyPair) : M unit :=
  l <- get_self ;;
  set_self {| timestamp := timestamp l; key := Some k;
              security_group := security_group l;
              instance := instance l; ip_address := ip_address l |}.

Definition set_security_group (g : SecurityGroup) : M unit :=
  l <- get_self ;;
  set_self {| timestamp := timestamp l; key := key l;
              security_group := Some g;
              instance := instance l; ip_address := ip_address l |}.

Definition set_instance (i : Instance) : M unit :=
  l <- get_self ;;
  set_self {| timestamp := timestamp l; key := key l;
              security_group := security_group l;
              instance := Some i; ip_address := ip_address l |}.

Definition set_ip_address (a : option string) : M unit :=
  l <- get_self ;;
  set_self {| timestamp := timestamp l; key := key l;
              security_group := security_group l;
              instance := instance l; ip_address := a |}.

Definition tcp_from_anywhere (port : Z) : IpPermission :=
  {| IpProtocol := "tcp"; FromPort := port; ToPort := port;
     IpRanges := ["0.0.0.0/0"] |}.

Definition setup : M unit :=
  enter Msetup ;;
  (* SSH keypair *)
  print "- creating SSH keypair" ;;
  l <- get_self ;;
  call_ (CreateKeyPair (timestamp l)) ;;
  set_key {| key_name := timestamp l; key_material := new_key_material env |} ;;
  l <- get_self ;;
  call_ (FileOpen (timestamp l ++ ".pem") "w") ;;
  try_finally
    (l <- get_self ;;
     k <- attr (key l) "key_material" ;;
     call_ (FileWrite (timestamp l ++ ".pem") (key_material k)))
    (l <- get_self ;; emit (FileClose (timestamp l ++ ".pem"))) ;;
  l <- get_self ;;
  call_ (Chmod (timestamp l ++ ".pem") 384 (* 0o600 *)) ;;
  (* security group *)
  print "- creating security group" ;;
  l <- get_self ;;
  call_ (CreateSecurityGroup (timestamp l) "openquake") ;;
  set_security_group {| group_id := new_group_id env |} ;;
  (* allow port 22 and 8080 *)
  l <- get_self ;;
  g <- attr (security_group l) "authorize_ingress" ;;
  call_ (AuthorizeIngress g [tcp_from_anywhere 22]) ;;
  l <- get_self ;;
  g <- attr (security_group l) "authorize_ingress" ;;
  call_ (AuthorizeIngress g [tcp_from_anywhere 8080]) ;;
  (* launch master node *)
  print "- launching instance" ;;
  l <- get_self ;;
  call_ (CreateInstances
           {| ImageId := "ami-6c14310f";
              InstanceType := "t2.micro";
              InstanceInitiatedShutdownBehavior := "terminate";
              MinCount := 1;
              MaxCount := 1;
              SecurityGroupIds := [timestamp l];
              KeyName := timestamp l |}) ;;
  set_instance {| instance_id := new_instance_id env |} ;;
  l <- get_self ;;
  i <- attr (instance l) "wait_until_running" ;;
  call_ (WaitUntilRunning i) ;;
  l <- get_self ;;
  i <- attr (instance l) "id" ;;
  call_ (DescribeInstance (instance_id i)) ;;
  set_ip_address (public_ip env) ;;
  l <- get_self ;;
  a <- str_operand (ip_address l) ;;
  print ("- launched: " ++ a).

(** ** deploy *)

Definition spin {A} : M A := fun w => (Spin, w).

(** One probe of port 22: [true] is the [break].  The socket is built
    and its timeout set before the [try]; both are taken to return. *)
Definition probe_ssh : M bool :=
  try_except
    (l <- get_self ;;
     host <- str_operand (ip_address l) ;;
     call_ (SocketConnect host 22 1) ;;
     ret true)
    (ret false).

Fixpoint poll_ssh (fuel : nat) : M unit :=
  match fuel with
  | O => spin
  | S fuel' =>
      connected <- probe_ssh ;;
      if connected then ret tt
      else
        emit SocketClose ;;
        call_ (Sleep 1) ;;
        poll_ssh fuel'
  end.

(** [log['time'] + ': ' + log['msg']], evaluated left to right. *)
Definition entry_line (log : pyval) : res string :=
  match getitem log "time" with
  | Val t =>
      match add_str t ": " with
      | Val a =>
          match getitem log "msg" with
          | Val m => str_add a m
          | Exc e => Exc e
          | Spin => Spin
          end
      | r => r
      end
  | Exc e => Exc e
  | Spin => Spin
  end.

(** [for log in ...: print(log['time'] + ': ' + log['msg'])]; [pos] is the
    index of the head of [logs] in [json['logs']]. *)
Fixpoint print_entries (pos : nat) (logs : list pyval) : M unit :=
  match logs with
  | [] => ret tt
  | log :: rest =>
      line <- eval (entry_line log) ;;
      emit (PrintEntry pos line) ;;
      print_entries (S pos) rest
  end.

(** [requests.get(url)]: the response, when the request goes through. *)
Definition requests_get (url : string) : M (option pyval) :=
  call_ (HttpGet url) ;;
  fun w => (Val (status env (gets w)),
            {| self := self w; log_count := log_count w; events := events w;
               tick := tick w; gets := S (gets w) |}).

(** [r.json()] *)
Definition response_json (body : option pyval) : M pyval :=
  match body with
  | Some j => ret j
  | None => raise (Exn ValueError "No JSON object could be decoded")
  end.

(** What the [try] of the polling loop does with the response: [true] is
    the [break]. *)
Definition digest (r : option pyval) : M bool :=
  json <- response_json r ;;
  logs <- eval (getitem json "logs") ;;
  new_log_count <- eval (py_len logs) ;;
  log_count <- get_log_count ;;
  (if Nat.ltb log_count new_log_count then
     logs <- eval (getitem json "logs") ;;
     log_count <- get_log_count ;;
     rest <- eval (slice_from logs log_count) ;;
     items <- eval (py_iter rest) ;;
     print_entries log_count items ;;
     log_count <- get_log_count ;;
     set_log_count (log_count + (new_log_count - log_count))
   else ret tt) ;;
  done <- eval (getitem json "done") ;;
  ret (truthy done).

(** The body of the [try] of the polling loop. *)
Definition poll_status : M bool :=
  l <- get_self ;;
  host <- str_operand (ip_address l) ;;
  r <- requests_get ("http://" ++ host ++ ":8080") ;;
  digest r.

(** download aws_log.log *)
Definition download_log : M unit :=
  try_except (call_ (ScpGet "/tmp/aws_log.log" "." false)) (ret tt).

(** What one iteration does once [time.sleep(1)] has returned: [true] is
    the [break]. *)
Definition poll_once : M bool :=
  stop <- try_except poll_status (ret false) ;;
  if stop then ret true
  else download_log ;; ret false.

Fixpoint poll_logs (fuel : nat) : M unit :=
  match fuel with
  | O => spin
  | S fuel' =>
      call_ (Sleep 1) ;;
      stop <- poll_once ;;
      if stop then ret tt else poll_logs fuel'
  end.

Definition download_results : M unit :=
  print "downloading results" ;;
  try_except_Exception
    (l <- get_self ;;
     call_ (ScpGet "/home/ubuntu/oqdata" ("oqdata-" ++ timestamp l) true))
    (fun e =>
       print ("Error - could not download results: " ++ str_of_exn e) ;;
       print "Check aws_log.log for logs of EC2 instance.").

Definition remote_command : string :=
  "cd /tmp;" ++ spaces 54 ++ "chmod +x master_script.sh;" ++ spaces 54
  ++ "nohup ./master_script.sh  > aws_log.log 2>&1 &".

(** [with SCPClient(ssh.get_transport()) as scp: body] *)
Definition with_scp {A} (body : M A) : M A :=
  call_ ScpOpen ;;
  try_finally body (emit ScpClose).

(** What [deploy] does inside the [with] block up to the end of the
    polling loop. *)
Definition run_workload (fuel : nat) : M unit :=
  print "- copying files to instance" ;;
  call_ (ScpPut ["master_script.sh"; "webserver.py"; "openquake"] "/tmp/" true) ;;
  print "- executing script on instance" ;;
  call_ (SshExec remote_command) ;;
  print "- polling instance for logs (run 'tail -f aws_log.log' to get running output" ;;
  set_log_count 0 ;;
  poll_logs fuel.

(** What [deploy] does before the [with] block. *)
Definition connect (fuel : nat) : M unit :=
  enter Mdeploy ;;
  print "- polling SSH until successful connection" ;;
  poll_ssh fuel ;;
  l <- get_self ;;
  host <- str_operand (ip_address l) ;;
  print ("- connecting to instance via SSH (ssh -i " ++ timestamp l
         ++ ".pem ubuntu@" ++ host ++ ")") ;;
  call_ (SshConnect host 22 "ubuntu" (timestamp l ++ ".pem")).

Definition deploy (fuel : nat) : M unit :=
  connect fuel ;;
  with_scp (run_workload fuel ;; download_results).

(** ** __main__ *)

Definition install_handlers : M unit :=
  emit (InstallHandler SIGTERM) ;;
  emit (InstallHandler SIGINT).

Definition main (fuel : nat) : M unit :=
  Launcher_init ;;
  install_handlers ;;
  try_finally
    (try_except_Exception
       (print "setting up" ;;
        setup ;;
        print "deploying" ;;
        deploy fuel)
       (fun e => print ("Error - could not run: " ++ str_of_exn e)))
    (print "tearing down finally" ;;
     teardown).

End Program.

Definition boot : world :=
  {| self := blank; log_count := 0; events := []; tick := 0; gets := 0 |}.

(** The run of the whole script in environment [env]. *)
Definition run (env : Env) (fuel : nat) : res unit * world := main env fuel boot.

(** ** Views of the record *)

(** The calls made, each with its outcome. *)
Fixpoint calls_of (l : list event) : list (call * option exn) :=
  match l with
  | [] => []
  | Call c o :: rest => (c, o) :: calls_of rest
  | _ :: rest => calls_of rest
  end.

Definition is_enter (m : method) (e : event) : bool :=
  match e, m with
  | Enter Msetup, Msetup | Enter Mdeploy, Mdeploy
  | Enter Mteardown, Mteardown => true
  | _, _ => false
  end.

(** How many times method [m] was invoked. *)
Definition invocations (m : method) (l : list event) : nat :=
  List.length (filter (is_enter m) l).

(** The log lines the polling loop printed, with their list positions. *)
Fixpoint entries_printed (l : list event) : list (nat * string) :=
  match l with
  | [] => []
  | PrintEntry pos line :: rest => (pos, line) :: entries_printed rest
  | _ :: rest => entries_printed rest
  end.

(** The ingress policy of the security group [g] that the run created,
    read off a chronological record: a security group is created without
    ingress rules, and each [authorize_ingress] on [g] that returns adds
    its permissions; an [authorize_ingress] on another group adds nothing
    to the policy of [g].  [None]: no security group was created. *)
Definition ingress_step (g : SecurityGroup)
    (policy : option (list IpPermission)) (e : event)
  : option (list IpPermission) :=
  match e with
  | Call (CreateSecurityGroup _ _) None => Some []
  | Call (AuthorizeIngress g' perms) None =>
      if String.eqb (group_id g') (group_id g)
      then option_map (fun p => (p ++ perms)%list) policy
      else policy
  | _ => policy
  end.

Definition ingress_policy (g : SecurityGroup) (l : list event)
  : option (list IpPermission) :=
  fold_left (ingress_step g) l None.

(** ** Environments and states used as concrete inputs *)

Definition entry (time msg : string) : pyval :=
  PDict [("time", PStr time); ("msg", PStr msg)].

Definition response (logs : list pyval) (done : bool) : pyval :=
  PDict [("logs", PList logs); ("done", PBool done)].

(** The two answers of the simulated status endpoint. *)
Definition first_response : pyval := response [entry "t1" "a"] false.
Definition second_response : pyval :=
  response [entry "t1" "a"; entry "t2" "b"] true.

(** Every call returns, no signal arrives, and the status endpoint gives
    the two answers above. *)
Definition env_ok : Env :=
  {| now := 1450000000;
     new_key_material := "PEM";
     new_group_id := "sg-1";
     new_instance_id := "i-1";
     public_ip := Some "1.2.3.4";
     outcome := fun _ _ => None;
     status := fun k => match k with
                        | O => Some first_response
                        | _ => Some second_response
                        end;
     signal_at := fun _ _ => None |}.

(** As [env_ok], but the provider refuses to create the security group. *)
Definition env_no_group : Env :=
  {| now := now env_ok;
     new_key_material := new_key_material env_ok;
     new_group_id := new_group_id env_ok;
     new_instance_id := new_instance_id env_ok;
     public_ip := public_ip env_ok;
     outcome := fun _ c =>
                  match c with
                  | CreateSecurityGroup _ _ =>
                      Some (Exn ClientError "SecurityGroupLimitExceeded")
                  | _ => None
                  end;
     status := status env_ok;
     signal_at := signal_at env_ok |}.

(** As [env_ok], but an interrupt signal arrives during the first
    [time.sleep(1)] of the polling loop and the operator answers [y]; the
    provider refuses to delete a security group a second time. *)
Definition env_sigint : Env :=
  {| now := now env_ok;
     new_key_material := new_key_material env_ok;
     new_group_id := new_group_id env_ok;
     new_instance_id := new_instance_id env_ok;
     public_ip := public_ip env_ok;
     outcome := fun n c =>
                  match c with
                  | SecurityGroupDelete _ =>
                      if Nat.ltb 18 n
                      then Some (Exn ClientError "InvalidGroup.NotFound")
                      else None
                  | _ => None
                  end;
     status := status env_ok;
     signal_at := fun _ c => match c with
                             | Sleep _ => Some "y"
                             | _ => None
                             end |}.

(** A Launcher whose [setup] has completed. *)
Definition provisioned : world :=
  {| self := {| timestamp := "openquake-1450000000";
                key := Some {| key_name := "openquake-1450000000";
                               key_material := "PEM" |};
                security_group := Some {| group_id := "sg-1" |};
                instance := Some {| instance_id := "i-1" |};
                ip_address := Some "1.2.3.4" |};
     log_count := 0; events := []; tick := 0; gets := 0 |}.

(** As [env_ok], but the provider refuses to delete the security group. *)
Definition env_group_in_use : Env :=
  {| now := now env_ok;
     new_key_material := new_key_material env_ok;
     new_group_id := new_group_id env_ok;
     new_instance_id := new_instance_id env_ok;
     public_ip := public_ip env_ok;
     outcome := fun _ c =>
                  match c with
                  | SecurityGroupDelete _ =>
                      Some (Exn ClientError "DependencyViolation")
                  | _ => None
                  end;
     status := status env_ok;
     signal_at := signal_at env_ok |}.


(** As [env_ok], but the first answer has no [done] field. *)
Definition env_no_done : Env :=
  {| now := now env_ok;
     new_key_material := new_key_material env_ok;
     new_group_id := new_group_id env_ok;
     new_instance_id := new_instance_id env_ok;
     public_ip := public_ip env_ok;
     outcome := outcome env_ok;
     status := fun k =>
                 match k with
                 | O => Some (PDict [("logs", PList [entry "t1" "a"])])
                 | _ => Some second_response
                 end;
     signal_at := signal_at env_ok |}.

(** As [env_ok], but the workload is finished at the first poll. *)
Definition env_finished : Env :=
  {| now := now env_ok;
     new_key_material := new_key_material env_ok;
     new_group_id := new_group_id env_ok;
     new_instance_id := new_instance_id env_ok;
     public_ip := public_ip env_ok;
     outcome := outcome env_ok;
     status := fun _ => Some second_response;
     signal_at := signal_at env_ok |}.

(** As [env_ok], but the results directory cannot be downloaded. *)
Definition env_no_results : Env :=
  {| now := now env_ok;
     new_key_material := new_key_material env_ok;
     new_group_id := new_group_id env_ok;
     new_instance_id := new_instance_id env_ok;
     public_ip := public_ip env_ok;
     outcome := fun _ c =>
                  match c with
                  | ScpGet _ _ true =>
                      Some (Exn SCPException
                              "scp: /home/ubuntu/oqdata: No such file or directory")
                  | _ => None
                  end;
     status := status env_ok;
     signal_at := signal_at env_ok |}.

(** ** Notions used in the statements *)

(** No signal arrives during the run. *)
Definition quiet (env : Env) : Prop := forall n c, signal_at env n c = None.

Definition is_input (e : event) : bool :=
  match e with Input _ _ => true | _ => false end.

Definition after_call (c : call) (o : option exn) (pre : list event) (w : world)
  : world :=
  {| self := self w; log_count := log_count w;
     events := Call c o :: (pre ++ events w)%list;
     tick := S (tick w); gets := gets w |}.

Definition returned (c : call) : call * option exn := (c, None).

(** The calls of [teardown], in the order of the source. *)
Definition teardown_steps (l : Launcher) (i : Instance) (g : SecurityGroup)
    (k : KeyPair) : list call :=
  [InstanceTerminate i; WaitUntilTerminated i; SecurityGroupDelete g;
   KeyPairDelete k; OsRemove (timestamp l ++ ".pem")].

(** [ingress_policy] on a record held newest first. *)
Definition ingress_rev (g : SecurityGroup) (l : list event)
  : option (list IpPermission) :=
  fold_right (fun e p => ingress_step g p e) None l.

Definition is_entry (e : event) : bool :=
  match e with PrintEntry _ _ => true | _ => false end.

(** What a collaborator cannot touch: the Launcher object, the local of
    [deploy], the count of status answers and the log lines printed. *)
Definition same_locals (w w' : world) : Prop :=
  self w' = self w /\ log_count w' = log_count w /\ gets w' = gets w /\
  entries_printed (events w') = entries_printed (events w).

(** [m] terminates and leaves the locals alone. *)
Definition framed {A} (m : M A) : Prop :=
  forall w r w', m w = (r, w') -> same_locals w w' /\ r <> Spin.

(** [m] leaves the view [f] of the world as it found it. *)
Definition keeps {X A} (f : world -> X) (m : M A) : Prop :=
  forall w out w', m w = (out, w') -> f w' = f w.

(** How many times [teardown] was invoked so far. *)
Definition teardowns (w : world) : nat := invocations Mteardown (events w).

(** Whether [print(log['time'] + ': ' + log['msg'])] goes through. *)
Definition renders (log : pyval) : bool :=
  match entry_line log with Val _ => true | _ => false end.

(** A response whose log list, if it is a list, holds only entries that
    can be printed. *)
Definition well_formed (json : pyval) : bool :=
  match getitem json "logs" with
  | Val (PList l) => forallb renders l
  | _ => true
  end.


(** The lines [lines] as printed from list position [pos] on. *)
Definition numbered (pos : nat) (lines : list string) : list (nat * string) :=
  combine (seq pos (List.length lines)) lines.

(** What one poll that received [r] can do to the counter and to the
    printed lines. *)
Definition poll_post (r : option pyval) (w : world) (out : res bool)
    (w' : world) : Prop :=
  self w' = self w /\ out <> Spin /\ log_count w <= log_count w' /\
  exists lines,
    entries_printed (events w') =
      (rev (numbered (log_count w) lines) ++ entries_printed (events w))%list /\
    (forall j logs n,
        r = Some j -> getitem j "logs" = Val logs -> py_len logs = Val n ->
        n <= log_count w ->
        lines = [] /\ log_count w' = log_count w) /\
    ((forall j, r = Some j -> well_formed j = true) ->
     lines = [] \/ log_count w' = log_count w + List.length lines) /\
    (forall e,
        out = Exc e ->
        log_count w' = log_count w \/
        exists j logs n,
          r = Some j /\ getitem j "logs" = Val logs /\ py_len logs = Val n /\
          log_count w < n /\ getitem j "done" = Exc e /\ log_count w' = n).


(** ** Notions used in the further properties *)

(** Every run of [m] takes the world to one related to it by [R]. *)
Definition respects (R : world -> world -> Prop) {A} (m : M A) : Prop :=
  forall w out w', m w = (out, w') -> R w w'.

(** The record only grows. *)
Definition extends (w w' : world) : Prop :=
  exists l, events w' = (l ++ events w)%list.

(** The probes of port 22 that failed with the exceptions [es], each
    followed by the close of the socket and the sleep. *)
Definition failed_probes (host : string) (es : list exn) : list event :=
  flat_map (fun e => [Call (SocketConnect host 22 1) (Some e);
                      SocketClose;
                      Call (Sleep 1) None]) es.

(** As [env_ok], but port 22 refuses the first two probes. *)
Definition env_booting : Env :=
  {| now := now env_ok;
     new_key_material := new_key_material env_ok;
     new_group_id := new_group_id env_ok;
     new_instance_id := new_instance_id env_ok;
     public_ip := public_ip env_ok;
     outcome := fun n c =>
                  match c with
                  | SocketConnect _ _ _ =>
                      if Nat.ltb n 4
                      then Some (Exn SocketError "Connection refused")
                      else None
                  | _ => None
                  end;
     status := status env_ok;
     signal_at := signal_at env_ok |}.

(** As [env_ok], but port 22 never answers. *)
Definition env_unreachable : Env :=
  {| now := now env_ok;
     new_key_material := new_key_material env_ok;
     new_group_id := new_group_id env_ok;
     new_instance_id := new_instance_id env_ok;
     public_ip := public_ip env_ok;
     outcome := fun _ c =>
                  match c with
                  | SocketConnect _ _ _ => Some (Exn SocketError "timed out")
                  | _ => None
                  end;
     status := status env_ok;
     signal_at := signal_at env_ok |}.

(** As [env_ok], but the workload never reports completion. *)
Definition env_never_done : Env :=
  {| now := now env_ok;
     new_key_material := new_key_material env_ok;
     new_group_id := new_group_id env_ok;
     new_instance_id := new_instance_id env_ok;
     public_ip := public_ip env_ok;
     outcome := outcome env_ok;
     status := fun _ => Some first_response;
     signal_at := signal_at env_ok |}.

(** As [env_ok], but the first answer reports completion without a log
    list. *)
Definition env_done_no_logs : Env :=
  {| now := now env_ok;
     new_key_material := new_key_material env_ok;
     new_group_id := new_group_id env_ok;
     new_instance_id := new_instance_id env_ok;
     public_ip := public_ip env_ok;
     outcome := outcome env_ok;
     status := fun k =>
                 match k with
                 | O => Some (PDict [("done", PBool true)])
                 | _ => Some second_response
                 end;
     signal_at := signal_at env_ok |}.

(** As [env_ok], but every sleep after the first call of the run is
    interrupted. *)
Definition env_sleepless : Env :=
  {| now := now env_ok;
     new_key_material := new_key_material env_ok;
     new_group_id := new_group_id env_ok;
     new_instance_id := new_instance_id env_ok;
     public_ip := public_ip env_ok;
     outcome := fun n c =>
                  match c with
                  | Sleep _ =>
                      if Nat.ltb n 1 then None
                      else Some (Exn IOError "Interrupted system call")
                  | _ => None
                  end;
     status := status env_ok;
     signal_at := signal_at env_ok |}.






(** The calls of [setup], in the order of the source, for the session
    name [ts]. *)
Definition setup_steps (env : Env) (ts : string) : list call :=
  [ CreateKeyPair ts;
    FileOpen (ts ++ ".pem") "w";
    FileWrite (ts ++ ".pem") (new_key_material env);
    Chmod (ts ++ ".pem") 384;
    CreateSecurityGroup ts "openquake";
    AuthorizeIngress {| group_id := new_group_id env |} [tcp_from_anywhere 22];
    AuthorizeIngress {| group_id := new_group_id env |} [tcp_from_anywhere 8080];
    CreateInstances
      {| ImageId := "ami-6c14310f";
         InstanceType := "t2.micro";
         InstanceInitiatedShutdownBehavior := "terminate";
         MinCount := 1;
         MaxCount := 1;
         SecurityGroupIds := [ts];
         KeyName := ts |};
    WaitUntilRunning {| instance_id := new_instance_id env |};
    DescribeInstance (new_instance_id env) ].

(** As [env_ok], but the instance comes up without a public address. *)
Definition env_no_address : Env :=
  {| now := now env_ok;
     new_key_material := new_key_material env_ok;
     new_group_id := new_group_id env_ok;
     new_instance_id := new_instance_id env_ok;
     public_ip := None;
     outcome := outcome env_ok;
     status := status env_ok;
     signal_at := signal_at env_ok |}.

(** As [env_ok], but the instance never reaches the running state. *)
Definition env_never_running : Env :=
  {| now := now env_ok;
     new_key_material := new_key_material env_ok;
     new_group_id := new_group_id env_ok;
     new_instance_id := new_instance_id env_ok;
     public_ip := public_ip env_ok;
     outcome := fun _ c =>
                  match c with
                  | WaitUntilRunning _ =>
                      Some (Exn ClientError "Max attempts exceeded")
                  | _ => None
                  end;
     status := status env_ok;
     signal_at := signal_at env_ok |}.

(** A Launcher fresh from its constructor. *)
Definition constructed : world :=
  {| self := {| timestamp := "openquake-1450000000"; key := None;
                security_group := None; instance := None;
                ip_address := None |};
     log_count := 0; events := []; tick := 0; gets := 0 |}.

(** Every call that fails does so with an exception of class
    [Exception]: no collaborator raises [SystemExit] or
    [KeyboardInterrupt] of its own. *)
Definition ordinary (env : Env) : Prop :=
  forall n c e, outcome env n c = Some e -> is_Exception e = true.

(** Whatever [m] raises is of class [Exception]. *)
Definition raises_exceptions {A} (m : M A) : Prop :=
  forall w e w', m w = (Exc e, w') -> is_Exception e = true.

(** As [env_ok], but a signal arrives whenever the program is about to
    probe port 22 or to ask for the status, and the operator answers
    [y]. *)
Definition env_exit_requested : Env :=
  {| now := now env_ok;
     new_key_material := new_key_material env_ok;
     new_group_id := new_group_id env_ok;
     new_instance_id := new_instance_id env_ok;
     public_ip := public_ip env_ok;
     outcome := outcome env_ok;
     status := status env_ok;
     signal_at := fun _ c => match c with
                             | HttpGet _ | SocketConnect _ _ _ => Some "y"
                             | _ => None
                             end |}.

(** [env] with the signals taken away. *)
Definition silenced (env : Env) : Env :=
  {| now := now env;
     new_key_material := new_key_material env;
     new_group_id := new_group_id env;
     new_instance_id := new_instance_id env;
     public_ip := public_ip env;
     outcome := outcome env;
     status := status env;
     signal_at := fun _ _ => None |}.

(** Every prompt of the handler is answered by something else than [y]
    or [Y]. *)
Definition declined (env : Env) : Prop :=
  forall n c a, signal_at env n c = Some a -> a <> "y" /\ a <> "Y".

(** The record without the prompts of the handler. *)
Definition without_prompts (l : list event) : list event :=
  filter (fun e => negb (is_input e)) l.

(** Two worlds that differ at most in the prompts recorded. *)
Definition same_but_prompts (w1 w2 : world) : Prop :=
  self w1 = self w2 /\ log_count w1 = log_count w2 /\ tick w1 = tick w2 /\
  gets w1 = gets w2 /\
  without_prompts (events w1) = without_prompts (events w2).

(** From such worlds, [m1] and [m2] end the same way in such worlds. *)
Definition simulates {A} (m1 m2 : M A) : Prop :=
  forall w1 w2, same_but_prompts w1 w2 ->
    fst (m1 w1) = fst (m2 w2) /\ same_but_prompts (snd (m1 w1)) (snd (m2 w2)).

(** As [env_ok], but a signal arrives at every call and the operator
    answers [n] each time. *)
Definition env_declined : Env :=
  {| now := now env_ok;
     new_key_material := new_key_material env_ok;
     new_group_id := new_group_id env_ok;
     new_instance_id := new_instance_id env_ok;
     public_ip := public_ip env_ok;
     outcome := outcome env_ok;
     status := status env_ok;
     signal_at := fun _ _ => Some "n" |}.

(** No prompt was recorded between [w] and [w']. *)
Definition no_new_prompt (w w' : world) : Prop :=
  filter is_input (events w') = filter is_input (events w).

(** What a reading [view] of the record shows is the same in [w] and in
    [w']. *)
Definition same_view {X} (view : list event -> X) (w w' : world) : Prop :=
  view (events w') = view (events w).

(** The events of the SCP channel: its opening, successful or not, and
    its close. *)
Definition is_scp (e : event) : bool :=
  match e with
  | Call ScpOpen _ | ScpClose => true
  | _ => false
  end.

(** The world in which [setup] starts: the Launcher is built, the
    handlers are installed and [setting up] is printed. *)
Definition started (env : Env) : world :=
  {| self := {| timestamp := "openquake-" ++ str_of_int (now env);
                key := None; security_group := None; instance := None;
                ip_address := None |};
     log_count := 0;
     events := [Print "setting up"; InstallHandler SIGINT;
                InstallHandler SIGTERM; Call (Boto3Resource "ec2") None];
     tick := 1; gets := 0 |}.

(** The files [deploy] uploads. *)
Definition upload : call :=
  ScpPut ["master_script.sh"; "webserver.py"; "openquake"] "/tmp/" true.

(** As [env_ok], but the upload fails. *)
Definition env_upload_fails : Env :=
  {| now := now env_ok;
     new_key_material := new_key_material env_ok;
     new_group_id := new_group_id env_ok;
     new_instance_id := new_instance_id env_ok;
     public_ip := public_ip env_ok;
     outcome := fun _ c =>
                  match c with
                  | ScpPut _ _ _ =>
                      Some (Exn SCPException "scp: /tmp/: Permission denied")
                  | _ => None
                  end;
     status := status env_ok;
     signal_at := signal_at env_ok |}.

(** A provisioned Launcher in a world whose counter holds a value left
    over from elsewhere. *)
Definition provisioned_stale : world :=
  {| self := self provisioned; log_count := 7; events := []; tick := 0;
     gets := 0 |}.

(** * Properties *)

Unset Implicit Arguments.

(** ** The monad *)

Lemma bind_Val A B (m : M A) (k : A -> M B) w b w' :
  bind m k w = (Val b, w') ->
  exists a w1, m w = (Val a, w1) /\ k a w1 = (Val b, w').
Proof.
  unfold bind. destruct (m w) as [[a | e |] w1]; intro H; try discriminate.
  exists a, w1. split; [reflexivity | exact H].
Qed.

Lemma bind_Val_intro A B (m : M A) (k : A -> M B) w a w1 :
  m w = (Val a, w1) -> bind m k w = k a w1.
Proof. unfold bind. intros ->. reflexivity. Qed.

(** ** Views *)

Lemma calls_of_app l1 l2 :
  calls_of (l1 ++ l2) = (calls_of l1 ++ calls_of l2)%list.
Proof.
  induction l1 as [| e l1 IH]; simpl; [reflexivity |].
  destruct e; simpl; rewrite IH; reflexivity.
Qed.

Lemma calls_of_rev l : calls_of (rev l) = rev (calls_of l).
Proof.
  induction l as [| e l IH]; simpl; [reflexivity |].
  rewrite calls_of_app, IH. destruct e; simpl; try apply app_nil_r.
  reflexivity.
Qed.

Lemma calls_of_inputs pre l :
  forallb is_input pre = true -> calls_of (pre ++ l) = calls_of l.
Proof.
  induction pre as [| e pre IH]; simpl; [reflexivity |].
  destruct e; simpl; try discriminate. exact IH.
Qed.

(** ** Calls and signals *)

Lemma call_quiet env c w : quiet env -> call_ env c w = raw_call env c w.
Proof. intro Q. unfold call_. rewrite Q. reflexivity. Qed.

Lemma raw_call_Val env c w w' :
  raw_call env c w = (Val tt, w') ->
  outcome env (tick w) c = None /\ w' = after_call c None [] w.
Proof.
  unfold raw_call, after_call. destruct (outcome env (tick w) c); intro H.
  - discriminate.
  - injection H as <-. split; reflexivity.
Qed.

(** A handler whose prompt is answered [y] never returns to the main flow. *)
Lemma handler_Val func a w w' :
  signal_term_handler func a w = (Val tt, w') ->
  w' = {| self := self w; log_count := log_count w;
          events := Input "Are you sure you want to exit? (y or n): " a
                    :: events w;
          tick := tick w; gets := gets w |}.
Proof.
  unfold signal_term_handler, raw_input, bind, emit, ret, print, sys_exit, raise.
  simpl. destruct (String.eqb (lower a) "y").
  - destruct (func _) as [[[] | e |] w1]; discriminate.
  - intro H. injection H as <-. reflexivity.
Qed.

(** A call that returns in the main flow: the only thing that can have
    happened beside it is a declined prompt. *)
Lemma call_Val env c w w' :
  call_ env c w = (Val tt, w') ->
  exists pre, forallb is_input pre = true /\ w' = after_call c None pre w.
Proof.
  unfold call_. destruct (signal_at env (tick w) c) as [a |].
  - intro H. apply bind_Val in H. destruct H as ([] & w1 & H1 & H2).
    apply handler_Val in H1. apply raw_call_Val in H2.
    destruct H2 as [_ ->]. subst w1.
    exists [Input "Are you sure you want to exit? (y or n): " a].
    split; reflexivity.
  - intro H. apply raw_call_Val in H. destruct H as [_ ->].
    exists []. split; reflexivity.
Qed.

(** ** teardown *)

Ltac simp_world H :=
  cbn [self log_count events tick gets after_call timestamp key
       security_group instance ip_address] in H.

Ltac step H :=
  let a := fresh "a" in
  let w1 := fresh "w" in
  let H1 := fresh "Hstep" in
  apply bind_Val in H; destruct H as (a & w1 & H1 & H);
  match type of a with unit => destruct a | _ => idtac end;
  first
    [ apply call_Val in H1;
      let pre := fresh "pre" in
      let P := fresh "P" in
      destruct H1 as (pre & P & ->)
    | simp_world H1;
      unfold emit, print, enter, get_self, set_self, get_log_count,
        set_log_count, set_key, set_security_group, set_instance,
        set_ip_address, attr, bind, ret in H1;
      injection H1; intros; subst; clear H1 ];
  simp_world H.

Lemma teardown_Val env w w' :
  teardown env w = (Val tt, w') ->
  exists i g k,
    instance (self w) = Some i /\ security_group (self w) = Some g /\
    key (self w) = Some k /\ self w' = self w /\
    calls_of (events w') =
      (rev (map returned (teardown_steps (self w) i g k))
       ++ calls_of (events w))%list.
Proof.
  unfold teardown, teardown_with. intro H.
  step H. step H. step H. simpl in H.
  destruct (instance (self w)) as [i |] eqn:Ei; [| discriminate].
  simpl in H. step H. step H. step H. simpl in H. rewrite Ei in H.
  step H. step H. step H. step H. simpl in H.
  destruct (security_group (self w)) as [g |] eqn:Eg; [| discriminate].
  step H. step H. step H. step H. simpl in H.
  destruct (key (self w)) as [k |] eqn:Ek; [| discriminate].
  step H. step H. step H. apply call_Val in H. destruct H as (pre3 & P3 & ->).
  do 3 eexists. simpl. repeat split.
  repeat (rewrite calls_of_inputs by assumption; simpl). reflexivity.
Qed.

Lemma try_finally_Val A (body : M A) final w a w' :
  try_finally body final w = (Val a, w') ->
  exists w1, body w = (Val a, w1) /\ final w1 = (Val tt, w').
Proof.
  unfold try_finally, bind, ret, raise.
  destruct (body w) as [[b | e |] w1]; try discriminate;
    destruct (final w1) as [[[] | e' |] w2] eqn:F; try discriminate.
  intro H. injection H as <- <-. exists w1. split; [reflexivity | exact F].
Qed.

Lemma without_prompts_rev l :
  without_prompts (rev l) = rev (without_prompts l).
Proof.
  unfold without_prompts. induction l as [| e l IH]; [reflexivity |].
  cbn [rev filter]. rewrite filter_app, IH. cbn [filter].
  destruct (negb (is_input e)); [reflexivity | apply app_nil_r].
Qed.

Lemma without_prompts_inputs pre l :
  forallb is_input pre = true ->
  without_prompts (pre ++ l) = without_prompts l.
Proof.
  unfold without_prompts. induction pre as [| e pre IH]; [reflexivity |].
  cbn [forallb app filter]. intro H. apply andb_prop in H. destruct H as [He Hp].
  rewrite He. cbn [negb]. exact (IH Hp).
Qed.

Lemma without_prompts_cons e l :
  is_input e = false -> without_prompts (e :: l) = e :: without_prompts l.
Proof. intro H. unfold without_prompts. cbn [filter]. rewrite H. reflexivity. Qed.

Lemma without_prompts_app l1 l2 :
  without_prompts (l1 ++ l2) = (without_prompts l1 ++ without_prompts l2)%list.
Proof. apply filter_app. Qed.

Ltac crank Q :=
  repeat progress
    (rewrite ?(call_quiet _ _ _ Q); unfold raw_call; simpl;
     repeat match goal with
       | H : outcome _ _ _ = _ |- _ => rewrite H
       | H : instance _ = _ |- _ => rewrite H
       | H : security_group _ = _ |- _ => rewrite H
       | H : key _ = _ |- _ => rewrite H
       | H : ip_address _ = _ |- _ => rewrite H
       end;
     simpl).

(** C7.  When the calls [pre] of [teardown] return and the next one, [c],
    raises [e], [teardown] raises [e] and makes none of the calls [post]
    that follow [c] in the source: if the deletion of the security group
    fails, the remote key pair is not deleted and the private-key file is
    not removed. *)
Theorem teardown_stops_at_first_failure env w i g k pre c post e :
  quiet env ->
  instance (self w) = Some i ->
  security_group (self w) = Some g ->
  key (self w) = Some k ->
  teardown_steps (self w) i g k = (pre ++ c :: post)%list ->
  (forall j c', nth_error pre j = Some c' ->
                outcome env (tick w + j) c' = None) ->
  outcome env (tick w + List.length pre) c = Some e ->
  exists w',
    teardown env w = (Exc e, w') /\
    calls_of (trace w') =
      (calls_of (trace w) ++ map returned pre ++ [(c, Some e)])%list.
Proof.
  intros Q Ei Eg Ek Hsplit Hpre Hc.
  unfold teardown_steps in Hsplit.
  assert (H0 : forall c', nth_error pre 0 = Some c' ->
                          outcome env (tick w) c' = None).
  { intros c' E. replace (tick w) with (tick w + 0) by lia. apply Hpre, E. }
  assert (H1 : forall c', nth_error pre 1 = Some c' ->
                          outcome env (S (tick w)) c' = None).
  { intros c' E. replace (S (tick w)) with (tick w + 1) by lia. apply Hpre, E. }
  assert (H2 : forall c', nth_error pre 2 = Some c' ->
                          outcome env (S (S (tick w))) c' = None).
  { intros c' E. replace (S (S (tick w))) with (tick w + 2) by lia.
    apply Hpre, E. }
  assert (H3 : forall c', nth_error pre 3 = Some c' ->
                          outcome env (S (S (S (tick w)))) c' = None).
  { intros c' E. replace (S (S (S (tick w)))) with (tick w + 3) by lia.
    apply Hpre, E. }
  clear Hpre.
  destruct pre as [| c1 [| c2 [| c3 [| c4 [| c5 pre]]]]];
    simpl in Hsplit; injection Hsplit; intros; subst;
    try (destruct pre; discriminate);
    simpl in Hc; rewrite ?Nat.add_succ_r, ?Nat.add_0_r in Hc;
    first [specialize (H0 _ eq_refl) | clear H0];
    first [specialize (H1 _ eq_refl) | clear H1];
    first [specialize (H2 _ eq_refl) | clear H2];
    first [specialize (H3 _ eq_refl) | clear H3];
    unfold teardown, teardown_with, bind, enter, print, emit, get_self, attr,
      ret; simpl; crank Q;
    (eexists; split; [reflexivity |]);
    unfold trace; simpl; rewrite !calls_of_app; simpl;
    rewrite ?app_nil_r, <- ?app_assoc; reflexivity.
Qed.

Lemma teardown_stops_at_first_failure_witness :
  exists w',
    teardown env_group_in_use provisioned
    = (Exc (Exn ClientError "DependencyViolation"), w') /\
    calls_of (trace w') =
      (calls_of (trace provisioned)
       ++ map returned [InstanceTerminate {| instance_id := "i-1" |};
                        WaitUntilTerminated {| instance_id := "i-1" |}]
       ++ [(SecurityGroupDelete {| group_id := "sg-1" |},
            Some (Exn ClientError "DependencyViolation"))])%list.
Proof.
  apply (teardown_stops_at_first_failure env_group_in_use provisioned
           {| instance_id := "i-1" |} {| group_id := "sg-1" |}
           {| key_name := "openquake-1450000000"; key_material := "PEM" |}
           [InstanceTerminate {| instance_id := "i-1" |};
            WaitUntilTerminated {| instance_id := "i-1" |}]
           (SecurityGroupDelete {| group_id := "sg-1" |})
           [KeyPairDelete {| key_name := "openquake-1450000000";
                             key_material := "PEM" |};
            OsRemove "openquake-1450000000.pem"]);
    try reflexivity.
  - intros n c. reflexivity.
  - intros j c' H.
    destruct j as [| [| j]]; simpl in H;
      [injection H as <- | injection H as <- | destruct j; discriminate];
      reflexivity.
Defined.

(** ** setup *)

Lemma ingress_policy_trace g w :
  ingress_policy g (trace w) = ingress_rev g (events w).
Proof.
  unfold ingress_policy, ingress_rev, trace.
  rewrite <- fold_left_rev_right, rev_involutive. reflexivity.
Qed.

Lemma ingress_rev_cons g e l :
  ingress_rev g (e :: l) = ingress_step g (ingress_rev g l) e.
Proof. reflexivity. Qed.

Lemma ingress_rev_inputs g pre l :
  forallb is_input pre = true -> ingress_rev g (pre ++ l) = ingress_rev g l.
Proof.
  unfold ingress_rev. induction pre as [| e pre IH]; simpl; [reflexivity |].
  destruct e; simpl; try discriminate. exact IH.
Qed.

(** What a completed [setup] leaves behind. *)
Lemma setup_Val env w w' :
  setup env w = (Val tt, w') ->
  (exists a,
     public_ip env = Some a /\
     self w' =
       {| timestamp := timestamp (self w);
          key := Some {| key_name := timestamp (self w);
                         key_material := new_key_material env |};
          security_group := Some {| group_id := new_group_id env |};
          instance := Some {| instance_id := new_instance_id env |};
          ip_address := Some a |}) /\
  ingress_rev {| group_id := new_group_id env |} (events w') =
    Some [tcp_from_anywhere 22; tcp_from_anywhere 8080].
Proof.
  unfold setup. intro H.
  do 7 step H.
  apply bind_Val in H. destruct H as ([] & w1 & Hw & H).
  apply try_finally_Val in Hw. destruct Hw as (w2 & Hb & Hf).
  do 2 step Hb. apply call_Val in Hb. destruct Hb as (pre1 & P1 & ->).
  step Hf. unfold emit in Hf. injection Hf as <-. simp_world H.
  do 24 step H.
  destruct (public_ip env) as [a |] eqn:Ea; [| discriminate].
  step H. unfold print, emit in H. injection H as <-.
  cbn [self events]. split.
  - eexists. split; reflexivity.
  - repeat (rewrite ingress_rev_cons || rewrite ingress_rev_inputs by assumption).
    cbn [ingress_step group_id]. rewrite String.eqb_refl. reflexivity.
Qed.

(** A rule authorised on another group is no rule of the group read. *)
Example rule_on_another_group_is_not_counted :
  ingress_policy {| group_id := "sg-1" |}
    [ Call (CreateSecurityGroup "openquake-1450000000" "openquake") None;
      Call (AuthorizeIngress {| group_id := "sg-2" |} [tcp_from_anywhere 22])
           None;
      Call (AuthorizeIngress {| group_id := "sg-1" |} [tcp_from_anywhere 8080])
           None ]
  = Some [tcp_from_anywhere 8080].
Proof. reflexivity. Qed.

(** C9.  Once [setup] has completed, [self.security_group] is the
    security group that [setup] created, and the ingress policy of that
    group holds exactly two rules, TCP port 22 and TCP port 8080, each
    open to 0.0.0.0/0: both rules were authorised on that group, and
    nothing else was. *)
Theorem setup_opens_two_ports env w w' :
  setup env w = (Val tt, w') ->
  exists g,
    security_group (self w') = Some g /\
    g = {| group_id := new_group_id env |} /\
    ingress_policy g (trace w') =
      Some [ {| IpProtocol := "tcp"; FromPort := 22; ToPort := 22;
                IpRanges := ["0.0.0.0/0"] |};
             {| IpProtocol := "tcp"; FromPort := 8080; ToPort := 8080;
                IpRanges := ["0.0.0.0/0"] |} ].
Proof.
  intro H. apply setup_Val in H. destruct H as [(a & _ & Hs) H].
  exists {| group_id := new_group_id env |}.
  split; [rewrite Hs; reflexivity |]. split; [reflexivity |].
  rewrite ingress_policy_trace. exact H.
Qed.

Lemma setup_opens_two_ports_witness :
  exists g,
    security_group (self (snd (setup env_ok boot))) = Some g /\
    g = {| group_id := new_group_id env_ok |} /\
    ingress_policy g (trace (snd (setup env_ok boot))) =
      Some [ {| IpProtocol := "tcp"; FromPort := 22; ToPort := 22;
                IpRanges := ["0.0.0.0/0"] |};
             {| IpProtocol := "tcp"; FromPort := 8080; ToPort := 8080;
                IpRanges := ["0.0.0.0/0"] |} ].
Proof.
  apply (setup_opens_two_ports env_ok boot (snd (setup env_ok boot))).
  vm_compute. reflexivity.
Defined.

(** ** teardown after a partial setup, and on a signal *)

(** As long as no instance was launched, [teardown] stops at its first
    statement and releases nothing. *)
Lemma teardown_without_instance env w :
  instance (self w) = None ->
  teardown env w =
    (Exc (Exn AttributeError "'NoneType' object has no attribute 'terminate'"),
     {| self := self w; log_count := log_count w;
        events := Print "- terminating instance" :: Enter Mteardown :: events w;
        tick := tick w; gets := gets w |}).
Proof.
  intro E. unfold teardown, teardown_with, bind, enter, print, emit, get_self.
  cbn [self]. rewrite E. reflexivity.
Qed.

(** C1.  The provider refuses the security group: [setup] is interrupted
    with the key pair created and neither security group nor instance.
    The [teardown] of the [finally] clause then raises [AttributeError] on
    the instance that was never created, and neither the remote key pair
    nor the private-key file is released. *)
Theorem teardown_after_partial_setup_raises :
  fst (run env_no_group 1) =
    Exc (Exn AttributeError "'NoneType' object has no attribute 'terminate'") /\
  self (snd (run env_no_group 1)) =
    {| timestamp := "openquake-1450000000";
       key := Some {| key_name := "openquake-1450000000";
                      key_material := "PEM" |};
       security_group := None;
       instance := None;
       ip_address := None |} /\
  trace (snd (run env_no_group 1)) =
    [ Call (Boto3Resource "ec2") None;
      InstallHandler SIGTERM; InstallHandler SIGINT;
      Print "setting up";
      Enter Msetup;
      Print "- creating SSH keypair";
      Call (CreateKeyPair "openquake-1450000000") None;
      Call (FileOpen "openquake-1450000000.pem" "w") None;
      Call (FileWrite "openquake-1450000000.pem" "PEM") None;
      FileClose "openquake-1450000000.pem";
      Call (Chmod "openquake-1450000000.pem" 384) None;
      Print "- creating security group";
      Call (CreateSecurityGroup "openquake-1450000000" "openquake")
           (Some (Exn ClientError "SecurityGroupLimitExceeded"));
      Print "Error - could not run: SecurityGroupLimitExceeded";
      Print "tearing down finally";
      Enter Mteardown;
      Print "- terminating instance" ].
Proof. vm_compute. repeat split. Qed.

(** C2.  An interrupt signal arrives during the [time.sleep(1)] of the
    polling loop and the prompt is answered [y]: the handler runs
    [teardown] and raises [SystemExit], which leaves [deploy], passes
    [except Exception] and reaches the [finally] clause, where [teardown]
    is invoked a second time (and fails on the security group that is
    already deleted). *)
Theorem teardown_invoked_twice_on_confirmed_signal :
  invocations Mteardown (trace (snd (run env_sigint 1))) = 2 /\
  fst (run env_sigint 1) = Exc (Exn ClientError "InvalidGroup.NotFound") /\
  exists before,
    trace (snd (run env_sigint 1)) =
      (before ++
       [ Input "Are you sure you want to exit? (y or n): " "y";
         Print "tearing down";
         Enter Mteardown;
         Print "- terminating instance";
         Call (InstanceTerminate {| instance_id := "i-1" |}) None;
         Call (WaitUntilTerminated {| instance_id := "i-1" |}) None;
         Print "- deleting security group";
         Call (SecurityGroupDelete {| group_id := "sg-1" |}) None;
         Print "- deleting SSH key";
         Call (KeyPairDelete {| key_name := "openquake-1450000000";
                                key_material := "PEM" |}) None;
         Call (OsRemove "openquake-1450000000.pem") None;
         ScpClose;
         Print "tearing down finally";
         Enter Mteardown;
         Print "- terminating instance";
         Call (InstanceTerminate {| instance_id := "i-1" |}) None;
         Call (WaitUntilTerminated {| instance_id := "i-1" |}) None;
         Print "- deleting security group";
         Call (SecurityGroupDelete {| group_id := "sg-1" |})
              (Some (Exn ClientError "InvalidGroup.NotFound")) ])%list.
Proof.
  split; [vm_compute; reflexivity |].
  split; [vm_compute; reflexivity |].
  exists (firstn 32 (trace (snd (run env_sigint 1)))).
  vm_compute. reflexivity.
Qed.

(** On the two other exit paths [teardown] is invoked once. *)
Example teardown_once_on_normal_completion :
  fst (run env_ok 2) = Val tt /\
  invocations Mteardown (trace (snd (run env_ok 2))) = 1.
Proof. vm_compute. split; reflexivity. Qed.

Example teardown_once_on_setup_error :
  invocations Mteardown (trace (snd (run env_no_group 1))) = 1.
Proof. vm_compute. reflexivity. Qed.

(** ** What the collaborators and the handler leave alone *)

Lemma same_locals_refl w : same_locals w w.
Proof. repeat split. Qed.

Lemma same_locals_trans w1 w2 w3 :
  same_locals w1 w2 -> same_locals w2 w3 -> same_locals w1 w3.
Proof.
  intros (A1 & A2 & A3 & A4) (B1 & B2 & B3 & B4).
  repeat split; congruence.
Qed.

Lemma framed_ret A (a : A) : framed (ret a).
Proof.
  intros w r w' H. injection H as <- <-.
  split; [apply same_locals_refl | discriminate].
Qed.

Lemma framed_raise A e : framed (@raise A e).
Proof.
  intros w r w' H. injection H as <- <-.
  split; [apply same_locals_refl | discriminate].
Qed.

Lemma framed_bind A B (m : M A) (k : A -> M B) :
  framed m -> (forall a, framed (k a)) -> framed (bind m k).
Proof.
  intros Fm Fk w r w' H. unfold bind in H.
  destruct (m w) as [[a | e |] w1] eqn:E; apply Fm in E; destruct E as [L N].
  - apply Fk in H. destruct H as [L' N'].
    split; [eapply same_locals_trans; eassumption | exact N'].
  - injection H as <- <-. split; [exact L | discriminate].
  - contradiction.
Qed.

Lemma framed_emit e : is_entry e = false -> framed (emit e).
Proof.
  intros E w r w' H. injection H as <- <-.
  split; [| discriminate]. repeat split. simpl.
  destruct e; try reflexivity. discriminate.
Qed.

Lemma framed_get_self : framed get_self.
Proof.
  intros w r w' H. injection H as <- <-.
  split; [apply same_locals_refl | discriminate].
Qed.

Lemma framed_attr A (o : option A) name : framed (attr o name).
Proof. destruct o; [apply framed_ret | apply framed_raise]. Qed.

Lemma framed_str_operand o : framed (str_operand o).
Proof. destruct o; [apply framed_ret | apply framed_raise]. Qed.

Lemma framed_raw_call env c : framed (raw_call env c).
Proof.
  intros w r w' H. unfold raw_call in H.
  destruct (outcome env (tick w) c); injection H as <- <-;
    (split; [repeat split | discriminate]).
Qed.

Lemma framed_try_except A (body handler : M A) :
  framed body -> framed handler -> framed (try_except body handler).
Proof.
  intros Fb Fh w r w' H. unfold try_except in H.
  destruct (body w) as [[a | e |] w1] eqn:E; apply Fb in E; destruct E as [L N].
  - injection H as <- <-. split; [exact L | discriminate].
  - apply Fh in H. destruct H as [L' N'].
    split; [eapply same_locals_trans; eassumption | exact N'].
  - contradiction.
Qed.

Ltac framed :=
  repeat first
    [ apply framed_ret | apply framed_raise | apply framed_get_self
    | apply framed_attr | apply framed_str_operand | apply framed_raw_call
    | apply framed_emit; reflexivity
    | apply framed_try_except
    | apply framed_bind; [| intro] ].

Lemma framed_teardown_with do :
  (forall c, framed (do c)) -> framed (teardown_with do).
Proof.
  intro F. unfold teardown_with, enter, print. framed; apply F.
Qed.

Lemma framed_handler func a :
  framed func -> framed (signal_term_handler func a).
Proof.
  intro F. unfold signal_term_handler, raw_input, print, sys_exit.
  apply framed_bind; [framed | intro choice].
  destruct (String.eqb (lower choice) "y"); framed. exact F.
Qed.

Lemma framed_call env c : framed (call_ env c).
Proof.
  intros w r w' H. unfold call_ in H.
  destruct (signal_at env (tick w) c) as [a |].
  - revert H. apply framed_bind; [| intro; apply framed_raw_call].
    apply framed_handler, framed_teardown_with. intro. apply framed_raw_call.
  - revert H. apply framed_raw_call.
Qed.

(** ** The polling loop *)

Lemma getitem_no_spin v k : getitem v k <> Spin.
Proof.
  destruct v; simpl; try discriminate. destruct (lookup k items); discriminate.
Qed.

Lemma entry_line_no_spin log : entry_line log <> Spin.
Proof.
  unfold entry_line.
  destruct (getitem log "time") as [t | e |] eqn:Et; try discriminate.
  - destruct t; simpl; try discriminate.
    destruct (getitem log "msg") as [m | e |] eqn:Em; try discriminate.
    + destruct m; simpl; discriminate.
    + exfalso. exact (getitem_no_spin _ _ Em).
  - exfalso. exact (getitem_no_spin _ _ Et).
Qed.

Lemma print_entries_spec items :
  forall pos w r w',
    print_entries pos items w = (r, w') ->
    self w' = self w /\ log_count w' = log_count w /\ gets w' = gets w /\
    calls_of (events w') = calls_of (events w) /\ r <> Spin /\
    exists lines,
      entries_printed (events w') =
        (rev (numbered pos lines) ++ entries_printed (events w))%list /\
      (r = Val tt -> List.length lines = List.length items) /\
      (forallb renders items = true -> r = Val tt) /\
      (forall x rest, items = x :: rest -> renders x = false -> lines = []).
Proof.
  induction items as [| x items IH]; intros pos w r w' H.
  - injection H as <- <-. repeat split; try discriminate.
    exists []. repeat split; try reflexivity; try discriminate.
  - simpl in H. unfold bind at 1, eval in H. unfold renders. simpl forallb.
    destruct (entry_line x) as [s | e |] eqn:Ex.
    + unfold bind at 1, emit in H. apply IH in H.
      destruct H as (A1 & A2 & A3 & A4 & A5 & lines & E & L & V & _).
      repeat split; try assumption.
      exists (s :: lines). repeat split.
      * rewrite E. unfold numbered. simpl. rewrite <- app_assoc. reflexivity.
      * intro R. simpl. rewrite (L R). reflexivity.
      * intro R. apply V. unfold renders in R. exact R.
      * intros x' rest' Q R. injection Q as <- _.
        unfold renders in R. rewrite Ex in R. discriminate.
    + injection H as <- <-. repeat split; try discriminate.
      exists []. repeat split; try reflexivity; discriminate.
    + exfalso. exact (entry_line_no_spin _ Ex).
Qed.

Lemma py_len_no_spin v : py_len v <> Spin.
Proof. destruct v; discriminate. Qed.

Lemma poll_post_unchanged r w out : out <> Spin -> poll_post r w out w.
Proof.
  intro N. repeat split; try assumption; try apply Nat.le_refl.
  exists []. repeat split; auto.
Qed.

Lemma digest_unchanged r w out :
  out <> Spin ->
  poll_post r w out w /\ gets w = gets w /\
  calls_of (events w) = calls_of (events w).
Proof.
  intro N. split; [apply poll_post_unchanged, N | split; reflexivity].
Qed.

Lemma forallb_skipn A (f : A -> bool) n l :
  forallb f l = true -> forallb f (skipn n l) = true.
Proof.
  revert l. induction n as [| n IH]; intros [| x l]; simpl; auto.
  intro H. apply andb_prop in H. apply IH, H.
Qed.

(** The poll printed the new entries and advanced the counter. *)
Lemma advanced_post j logs n w w1 lines :
  getitem j "logs" = Val logs -> py_len logs = Val n -> log_count w < n ->
  self w1 = self w -> log_count w1 = log_count w ->
  entries_printed (events w1) =
    (rev (numbered (log_count w) lines) ++ entries_printed (events w))%list ->
  lines = [] \/ List.length lines = n - log_count w ->
  poll_post (Some j) w
    match getitem j "done" with
    | Val d => Val (truthy d)
    | Exc e => Exc e
    | Spin => Spin
    end
    {| self := self w1; log_count := log_count w1 + (n - log_count w1);
       events := events w1; tick := tick w1; gets := gets w1 |}.
Proof.
  intros Elogs Elen Lt A1 A2 E Hl. unfold poll_post. cbn [self log_count events].
  split; [assumption |].
  split; [destruct (getitem j "done") eqn:Ed; try discriminate;
          exfalso; exact (getitem_no_spin _ _ Ed) |].
  split; [lia |].
  exists lines. split; [assumption |]. split; [| split].
  - intros j' logs' n' Q1 Q2 Q3 Q4. exfalso. injection Q1 as <-.
    rewrite Elogs in Q2. injection Q2 as <-. rewrite Elen in Q3.
    injection Q3 as <-. lia.
  - intros _. destruct Hl as [-> | Hl]; [left; reflexivity | right; lia].
  - intros e Q. right. exists j, logs, n.
    repeat split; try assumption; [| lia].
    destruct (getitem j "done"); try discriminate.
    injection Q as <-. reflexivity.
Qed.

(** The poll raised before the counter was advanced. *)
Lemma interrupted_post j logs n w w1 lines e :
  getitem j "logs" = Val logs -> py_len logs = Val n -> log_count w < n ->
  self w1 = self w -> log_count w1 = log_count w ->
  entries_printed (events w1) =
    (rev (numbered (log_count w) lines) ++ entries_printed (events w))%list ->
  lines = [] \/ well_formed j = false ->
  poll_post (Some j) w (Exc e) w1.
Proof.
  intros Elogs Elen Lt A1 A2 E Hl. unfold poll_post.
  split; [assumption |]. split; [discriminate |]. split; [lia |].
  exists lines. split; [assumption |]. split; [| split].
  - intros j' logs' n' Q1 Q2 Q3 Q4. exfalso. injection Q1 as <-.
    rewrite Elogs in Q2. injection Q2 as <-. rewrite Elen in Q3.
    injection Q3 as <-. lia.
  - intro W. specialize (W j eq_refl).
    destruct Hl as [-> | Hl]; [left; reflexivity | congruence].
  - intros e' _. left. assumption.
Qed.

Lemma renders_chars s x rest : chars s = x :: rest -> renders x = false.
Proof.
  destruct s as [| c s]; simpl; intro H; [discriminate |].
  injection H as <- _. reflexivity.
Qed.

Lemma digest_spec r w out w' :
  digest r w = (out, w') ->
  poll_post r w out w' /\ gets w' = gets w /\
  calls_of (events w') = calls_of (events w).
Proof.
  intro H. unfold digest in H.
  destruct r as [j |]; unfold bind at 1 in H; simpl in H.
  2: { injection H as <- <-. apply digest_unchanged. discriminate. }
  unfold bind at 1, eval in H.
  destruct (getitem j "logs") as [logs | e |] eqn:Elogs.
  2: { injection H as <- <-. apply digest_unchanged. discriminate. }
  2: { exfalso. exact (getitem_no_spin _ _ Elogs). }
  unfold bind at 1 in H.
  destruct (py_len logs) as [n | e |] eqn:Elen.
  2: { injection H as <- <-. apply digest_unchanged. discriminate. }
  2: { exfalso. exact (py_len_no_spin _ Elen). }
  unfold bind at 1, get_log_count in H.
  destruct (Nat.ltb (log_count w) n) eqn:Lt.
  2: { unfold bind, eval, ret in H.
       destruct (getitem j "done") as [d | e |] eqn:Ed; injection H as <- <-;
         apply digest_unchanged; try discriminate.
       exfalso. exact (getitem_no_spin _ _ Ed). }
  apply Nat.ltb_lt in Lt.
  unfold bind, eval, get_log_count, set_log_count, ret in H.
  destruct logs as [| b | z | s | l | items]; try discriminate;
    cbn [slice_from py_iter] in H.
  - (* a string: no character of it can be printed *)
    set (its := chars (substring (log_count w) (String.length s - log_count w) s)) in H.
    destruct (print_entries (log_count w) its w) as [[[] | e |] w1] eqn:Ep;
      apply print_entries_spec in Ep;
      destruct Ep as (A1 & A2 & A3 & A4 & A5 & lines & E & L & V & Hd);
      [ | | contradiction ];
      assert (lines = []) as ->
        by (destruct its as [| x rest] eqn:Ei;
            [ specialize (V eq_refl); specialize (L V);
              destruct lines; [reflexivity | discriminate]
            | apply (Hd x rest eq_refl), (renders_chars _ _ _ Ei) ]).
    + split; [| destruct (getitem j "done"); injection H as <- <-;
                split; assumption].
      replace out with (match getitem j "done" with
                        | Val d => Val (truthy d)
                        | Exc e => Exc e
                        | Spin => Spin
                        end)
        by (destruct (getitem j "done"); injection H as <- _; reflexivity).
      replace w' with {| self := self w1;
                         log_count := log_count w1 + (n - log_count w1);
                         events := events w1; tick := tick w1;
                         gets := gets w1 |}
        by (destruct (getitem j "done"); injection H as _ <-; reflexivity).
      eapply advanced_post; eauto.
    + injection H as <- <-. split; [| split; assumption].
      eapply interrupted_post; eauto.
  - (* a list *)
    destruct (print_entries (log_count w) (skipn (log_count w) l) w)
      as [[[] | e |] w1] eqn:Ep;
      apply print_entries_spec in Ep;
      destruct Ep as (A1 & A2 & A3 & A4 & A5 & lines & E & L & V & Hd);
      [ | | contradiction ].
    + split; [| destruct (getitem j "done"); injection H as <- <-;
                split; assumption].
      replace out with (match getitem j "done" with
                        | Val d => Val (truthy d)
                        | Exc e => Exc e
                        | Spin => Spin
                        end)
        by (destruct (getitem j "done"); injection H as <- _; reflexivity).
      replace w' with {| self := self w1;
                         log_count := log_count w1 + (n - log_count w1);
                         events := events w1; tick := tick w1;
                         gets := gets w1 |}
        by (destruct (getitem j "done"); injection H as _ <-; reflexivity).
      eapply advanced_post; eauto.
      right. rewrite (L eq_refl), length_skipn.
      injection Elen as <-. reflexivity.
    + injection H as <- <-. split; [| split; assumption].
      eapply interrupted_post; eauto.
      right. unfold well_formed. rewrite Elogs.
      destruct (forallb renders l) eqn:W; [| reflexivity].
      apply (forallb_skipn _ _ (log_count w)) in W.
      specialize (V W). discriminate.
  - (* a dict cannot be sliced *)
    injection H as <- <-. apply digest_unchanged. discriminate.
Qed.

Lemma poll_post_agree r w0 w out w' :
  self w0 = self w -> log_count w0 = log_count w ->
  entries_printed (events w0) = entries_printed (events w) ->
  poll_post r w out w' -> poll_post r w0 out w'.
Proof.
  unfold poll_post. intros -> -> ->. exact (fun H => H).
Qed.

Lemma poll_post_later r w out w1 w' :
  same_locals w1 w' -> poll_post r w out w1 -> poll_post r w out w'.
Proof.
  unfold poll_post. intros (-> & -> & _ & ->). exact (fun H => H).
Qed.

Lemma poll_status_spec env w out w' :
  poll_status env w = (out, w') ->
  poll_post (status env (gets w)) w out w'.
Proof.
  unfold poll_status, bind at 1, get_self. unfold bind at 1.
  destruct (ip_address (self w)) as [host |]; cbn [str_operand ret raise].
  2: { intro H. injection H as <- <-. apply poll_post_unchanged. discriminate. }
  unfold requests_get, bind.
  destruct (call_ env (HttpGet ("http://" ++ host ++ ":8080")) w)
    as [[[] | e |] w1] eqn:Ec;
    apply framed_call in Ec; destruct Ec as [(L1 & L2 & L3 & L4) N];
    [ | | contradiction ].
  - intro H. apply digest_spec in H. destruct H as (H & _ & _).
    cbn [gets] in H. rewrite L3 in H.
    revert H. apply poll_post_agree; cbn [self log_count events]; congruence.
  - intro H. injection H as <- <-.
    apply (poll_post_later _ _ _ w); [repeat split; assumption |].
    apply poll_post_unchanged. discriminate.
Qed.

Lemma download_log_Val env w :
  exists w', download_log env w = (Val tt, w') /\ same_locals w w'.
Proof.
  unfold download_log, try_except.
  destruct (call_ env (ScpGet "/tmp/aws_log.log" "." false) w)
    as [[[] | e |] w1] eqn:Ec;
    apply framed_call in Ec; destruct Ec as [L N];
    [ | | contradiction ]; exists w1; split; try reflexivity; assumption.
Qed.

(** One iteration, once the sleep has returned, ends in a [break] or goes
    on to the next: it never raises. *)
Lemma poll_once_spec env w out w' :
  poll_once env w = (out, w') ->
  exists b out1,
    out = Val b /\ poll_post (status env (gets w)) w out1 w' /\
    (b = true -> poll_status env w = (Val true, w')).
Proof.
  unfold poll_once, bind, try_except.
  destruct (poll_status env w) as [[[|] | e |] w1] eqn:Ep;
    pose proof (poll_status_spec _ _ _ _ Ep) as Hp; cbn [ret].
  - intro H. injection H as <- <-. exists true, (Val true). auto.
  - destruct (download_log_Val env w1) as (w2 & -> & L).
    intro H. injection H as <- <-. exists false, (Val false).
    split; [reflexivity |]. split; [| discriminate].
    eapply poll_post_later; eassumption.
  - destruct (download_log_Val env w1) as (w2 & -> & L).
    intro H. injection H as <- <-. exists false, (Exc e).
    split; [reflexivity |]. split; [| discriminate].
    eapply poll_post_later; eassumption.
  - destruct Hp as (_ & N & _). contradiction.
Qed.








(** C5, as amended.  When the [try] of an iteration raises (the GET, the
    parse or a field access), the iteration swallows the error, attempts
    the log download and ends without [break]: the loop goes on with a
    whole new iteration, which starts with the one-second sleep.  The
    counter is as the poll left it: unchanged, unless it is the access to
    [json['done']] that raised after new entries were printed, in which
    case it already stands at the length of the list received. *)
Theorem failed_poll_is_swallowed env w e w1 :
  poll_status env w = (Exc e, w1) ->
  exists w2,
    poll_once env w = (Val false, w2) /\
    log_count w2 = log_count w1 /\
    (forall fuel ws,
        call_ env (Sleep 1) ws = (Val tt, w) ->
        poll_logs env (S (S fuel)) ws =
        (call_ env (Sleep 1) ;;
         stop <- poll_once env ;;
         if stop then ret tt else poll_logs env fuel) w2) /\
    (log_count w1 = log_count w \/
     exists j logs n,
       status env (gets w) = Some j /\ getitem j "logs" = Val logs /\
       py_len logs = Val n /\ log_count w < n /\
       getitem j "done" = Exc e /\ log_count w1 = n).
Proof.
  intro H. destruct (download_log_Val env w1) as (w2 & D & (_ & L & _)).
  assert (O : poll_once env w = (Val false, w2)).
  { unfold poll_once, bind, try_except. rewrite H. cbn [ret]. rewrite D.
    reflexivity. }
  exists w2. split; [exact O |]. split; [exact L |]. split.
  - intros fuel ws Hs.
    change (poll_logs env (S (S fuel)) ws)
      with ((call_ env (Sleep 1) ;;
             stop <- poll_once env ;;
             if stop then ret tt else poll_logs env (S fuel)) ws).
    rewrite (bind_Val_intro _ _ _ _ _ _ _ Hs).
    rewrite (bind_Val_intro _ _ _ _ _ _ _ O). reflexivity.
  - apply poll_status_spec in H.
    destruct H as (_ & _ & _ & lines & _ & _ & _ & Hx). apply (Hx e eq_refl).
Qed.

Lemma failed_poll_is_swallowed_witness :
  exists w2,
    poll_once env_no_done provisioned = (Val false, w2) /\
    log_count w2 = log_count (snd (poll_status env_no_done provisioned)) /\
    (forall fuel ws,
        call_ env_no_done (Sleep 1) ws = (Val tt, provisioned) ->
        poll_logs env_no_done (S (S fuel)) ws =
        (call_ env_no_done (Sleep 1) ;;
         stop <- poll_once env_no_done ;;
         if stop then ret tt else poll_logs env_no_done fuel) w2) /\
    (log_count (snd (poll_status env_no_done provisioned))
     = log_count provisioned \/
     exists j logs n,
       status env_no_done (gets provisioned) = Some j /\
       getitem j "logs" = Val logs /\
       py_len logs = Val n /\ log_count provisioned < n /\
       getitem j "done" = Exc (Exn KeyError "done") /\
       log_count (snd (poll_status env_no_done provisioned)) = n).
Proof.
  apply (failed_poll_is_swallowed env_no_done provisioned
           (Exn KeyError "done") (snd (poll_status env_no_done provisioned))).
  vm_compute. reflexivity.
Defined.

(** C5, as stated, fails: the answer has a log entry and no [done] field;
    the entry is printed, the counter goes from 0 to 1, and then
    [json['done']] raises [KeyError], which is swallowed. *)
Lemma count_advanced_by_failed_poll :
  fst (poll_status env_no_done provisioned) = Exc (Exn KeyError "done") /\
  fst (poll_once env_no_done provisioned) = Val false /\
  log_count provisioned = 0 /\
  log_count (snd (poll_once env_no_done provisioned)) = 1.
Proof. vm_compute. repeat split. Qed.

Lemma poll_status_calls env w b w' :
  poll_status env w = (Val b, w') ->
  exists host,
    ip_address (self w) = Some host /\
    calls_of (events w') =
      (HttpGet ("http://" ++ host ++ ":8080"), None) :: calls_of (events w).
Proof.
  unfold poll_status, bind at 1, get_self. unfold bind at 1.
  destruct (ip_address (self w)) as [host |]; cbn [str_operand ret raise];
    [| discriminate].
  unfold requests_get. unfold bind at 1 2.
  destruct (call_ env (HttpGet ("http://" ++ host ++ ":8080")) w)
    as [[[] | e |] w1] eqn:Ec; try discriminate.
  apply call_Val in Ec. destruct Ec as (pre & P & ->).
  intro H. apply digest_spec in H. destruct H as (_ & _ & ->).
  exists host. split; [reflexivity |].
  cbn [events after_call calls_of]. rewrite calls_of_inputs by assumption.
  reflexivity.
Qed.

(** C8, as stated, fails: the first answer carries the completion flag,
    and the iteration that receives it ends the loop with the GET as its
    only call. *)
Lemma no_log_download_when_done :
  fst (poll_once env_finished provisioned) = Val true /\
  calls_of (trace (snd (poll_once env_finished provisioned))) =
    [(HttpGet "http://1.2.3.4:8080", None)] /\
  ~ In (ScpGet "/tmp/aws_log.log" "." false)
       (map fst (calls_of (trace (snd (poll_once env_finished provisioned))))).
Proof.
  split; [vm_compute; reflexivity |].
  split; [vm_compute; reflexivity |].
  replace (map fst (calls_of (trace (snd (poll_once env_finished provisioned)))))
    with [HttpGet "http://1.2.3.4:8080"] by (vm_compute; reflexivity).
  intros [H | []]. discriminate.
Qed.

Lemma digest_first_response w :
  log_count w = 0 ->
  digest (Some first_response) w =
    (Val false,
     {| self := self w; log_count := 1;
        events := PrintEntry 0 "t1: a" :: events w;
        tick := tick w; gets := gets w |}).
Proof.
  destruct w as [l c ev t g]. cbn [log_count]. intros ->. reflexivity.
Qed.

Lemma digest_second_response w :
  log_count w = 1 ->
  digest (Some second_response) w =
    (Val true,
     {| self := self w; log_count := 2;
        events := PrintEntry 1 "t2: b" :: events w;
        tick := tick w; gets := gets w |}).
Proof.
  destruct w as [l c ev t g]. cbn [log_count]. intros ->. reflexivity.
Qed.

(** The polling loop, entered with the counter at 0, on the two answers
    [first_response] and [second_response]. *)
Lemma poll_logs_two_responses env fuel w host :
  quiet env ->
  (forall n, outcome env n (Sleep 1) = None) ->
  (forall n url, outcome env n (HttpGet url) = None) ->
  ip_address (self w) = Some host ->
  log_count w = 0 ->
  status env (gets w) = Some first_response ->
  status env (S (gets w)) = Some second_response ->
  exists o w',
    poll_logs env (S (S fuel)) w = (Val tt, w') /\
    gets w' = S (S (gets w)) /\
    log_count w' = 2 /\
    trace w' =
      (trace w ++
       [ Call (Sleep 1) None;
         Call (HttpGet ("http://" ++ host ++ ":8080")) None;
         PrintEntry 0 "t1: a";
         Call (ScpGet "/tmp/aws_log.log" "." false) o;
         Call (Sleep 1) None;
         Call (HttpGet ("http://" ++ host ++ ":8080")) None;
         PrintEntry 1 "t2: b" ])%list.
Proof.
  intros Q Hsleep Hget Hip Hc H1 H2.
  exists (outcome env (S (S (tick w))) (ScpGet "/tmp/aws_log.log" "." false)).
  cbn [poll_logs]. unfold poll_once, poll_status, requests_get, download_log.
  unfold bind, try_except, get_self.
  rewrite call_quiet by assumption. unfold raw_call at 1. rewrite Hsleep.
  cbn [self log_count events tick gets]. rewrite Hip. cbn [str_operand ret].
  rewrite call_quiet by assumption. unfold raw_call at 1. rewrite Hget.
  cbn [self log_count events tick gets]. rewrite H1.
  rewrite digest_first_response by exact Hc.
  rewrite call_quiet by assumption. unfold raw_call at 1.
  cbn [self log_count events tick gets].
  destruct (outcome env (S (S (tick w))) (ScpGet "/tmp/aws_log.log" "." false));
    cbn [ret];
    (rewrite call_quiet by assumption; unfold raw_call at 1; rewrite Hsleep;
     cbn [self log_count events tick gets]; rewrite Hip; cbn [str_operand ret];
     rewrite call_quiet by assumption; unfold raw_call at 1; rewrite Hget;
     cbn [self log_count events tick gets]; rewrite H2;
     rewrite digest_second_response by reflexivity;
     cbn [self log_count events tick gets];
     eexists; split; [reflexivity |]; split; [reflexivity |];
     split; [reflexivity |];
     unfold trace; cbn [events rev]; rewrite <- !app_assoc; reflexivity).
Qed.

(** C3.  The status endpoint answers [first_response] and then
    [second_response]: whatever the counter held before, the part of
    [deploy] that uploads, starts and polls sets the counter to 0, prints
    the two log lines, each once and in list order, and leaves the loop
    right after the second answer, whatever the download of the log file
    did in between. *)
Theorem two_responses_two_lines env fuel w host :
  quiet env ->
  (forall n, outcome env n upload = None) ->
  (forall n, outcome env n (SshExec remote_command) = None) ->
  (forall n, outcome env n (Sleep 1) = None) ->
  (forall n url, outcome env n (HttpGet url) = None) ->
  ip_address (self w) = Some host ->
  status env (gets w) = Some first_response ->
  status env (S (gets w)) = Some second_response ->
  exists o w',
    run_workload env (S (S fuel)) w = (Val tt, w') /\
    gets w' = S (S (gets w)) /\
    log_count w' = 2 /\
    trace w' =
      (trace w ++
       [ Print "- copying files to instance";
         Call upload None;
         Print "- executing script on instance";
         Call (SshExec remote_command) None;
         Print "- polling instance for logs (run 'tail -f aws_log.log' to get running output";
         Call (Sleep 1) None;
         Call (HttpGet ("http://" ++ host ++ ":8080")) None;
         PrintEntry 0 "t1: a";
         Call (ScpGet "/tmp/aws_log.log" "." false) o;
         Call (Sleep 1) None;
         Call (HttpGet ("http://" ++ host ++ ":8080")) None;
         PrintEntry 1 "t2: b" ])%list.
Proof.
  intros Q Hup Hex Hsleep Hget Hip H1 H2. unfold upload in Hup.
  set (w0 := {| self := self w; log_count := 0;
                events :=
                  Print "- polling instance for logs (run 'tail -f aws_log.log' to get running output"
                  :: Call (SshExec remote_command) None
                  :: Print "- executing script on instance"
                  :: Call upload None
                  :: Print "- copying files to instance" :: events w;
                tick := S (S (tick w)); gets := gets w |}).
  assert (E0 : run_workload env (S (S fuel)) w = poll_logs env (S (S fuel)) w0).
  { unfold run_workload.
    unfold bind at 1, print at 1, emit at 1.
    unfold bind at 1. rewrite (call_quiet env _ _ Q). unfold raw_call at 1.
    cbn [self log_count events tick gets]. rewrite Hup.
    unfold bind at 1, print at 1, emit at 1.
    unfold bind at 1. rewrite (call_quiet env _ _ Q). unfold raw_call at 1.
    cbn [self log_count events tick gets]. rewrite Hex.
    unfold bind at 1, print at 1, emit at 1.
    unfold bind at 1, set_log_count.
    cbn [self log_count events tick gets]. reflexivity. }
  destruct (poll_logs_two_responses env fuel w0 host Q Hsleep Hget Hip
              eq_refl H1 H2) as (o & w' & Hp & Hg & Hl & Ht).
  exists o, w'. split; [rewrite E0; exact Hp |]. split; [exact Hg |].
  split; [exact Hl |].
  rewrite Ht. unfold trace, w0. cbn [events rev]. rewrite <- !app_assoc.
  reflexivity.
Qed.

Lemma two_responses_two_lines_witness :
  exists o w',
    run_workload env_ok 2 provisioned_stale = (Val tt, w') /\
    gets w' = S (S (gets provisioned_stale)) /\
    log_count w' = 2 /\
    trace w' =
      (trace provisioned_stale ++
       [ Print "- copying files to instance";
         Call upload None;
         Print "- executing script on instance";
         Call (SshExec remote_command) None;
         Print "- polling instance for logs (run 'tail -f aws_log.log' to get running output";
         Call (Sleep 1) None;
         Call (HttpGet ("http://" ++ "1.2.3.4" ++ ":8080")) None;
         PrintEntry 0 "t1: a";
         Call (ScpGet "/tmp/aws_log.log" "." false) o;
         Call (Sleep 1) None;
         Call (HttpGet ("http://" ++ "1.2.3.4" ++ ":8080")) None;
         PrintEntry 1 "t2: b" ])%list.
Proof.
  apply (two_responses_two_lines env_ok 0 provisioned_stale "1.2.3.4");
    try reflexivity.
  intros n c. reflexivity.
Defined.

(** ** The end of deploy *)

Lemma poll_ssh_self env fuel :
  forall w out w', poll_ssh env fuel w = (out, w') -> self w' = self w.
Proof.
  induction fuel as [| fuel IH]; intros w out w' H.
  - injection H as <- <-. reflexivity.
  - simpl in H. unfold bind at 1 in H.
    destruct (probe_ssh env w) as [[[|] | e |] w1] eqn:Ep;
      (assert (F : framed (probe_ssh env))
         by (unfold probe_ssh; framed; apply framed_call));
      apply F in Ep; destruct Ep as [(L & _) N].
    + injection H as <- <-. exact L.
    + unfold bind at 1, emit in H. unfold bind at 1 in H.
      match type of H with
      | context [call_ env (Sleep 1) ?x] =>
          destruct (call_ env (Sleep 1) x) as [[[] | e |] w2] eqn:Ec;
          apply framed_call in Ec; destruct Ec as [(L2 & _) N2]
      end.
      * apply IH in H. cbn [self] in L2. congruence.
      * injection H as <- <-. cbn [self] in L2. congruence.
      * contradiction.
    + injection H as <- <-. exact L.
    + contradiction.
Qed.

Lemma poll_logs_self env fuel :
  forall w out w', poll_logs env fuel w = (out, w') -> self w' = self w.
Proof.
  induction fuel as [| fuel IH]; intros w out w' H.
  - injection H as <- <-. reflexivity.
  - simpl in H. unfold bind at 1 in H.
    destruct (call_ env (Sleep 1) w) as [[[] | e |] w1] eqn:Ec;
      apply framed_call in Ec; destruct Ec as [(L & _) N];
      [ | injection H as <- <-; exact L | contradiction ].
    unfold bind at 1 in H.
    destruct (poll_once env w1) as [out1 w2] eqn:Ep.
    apply poll_once_spec in Ep.
    destruct Ep as (b & out2 & -> & (L2 & _) & _).
    destruct b.
    + injection H as <- <-. congruence.
    + apply IH in H. congruence.
Qed.

Lemma connect_self env fuel w w' :
  connect env fuel w = (Val tt, w') -> self w' = self w.
Proof.
  unfold connect. intro H. do 2 step H.
  apply bind_Val in H. destruct H as ([] & w1 & Hp & H).
  apply poll_ssh_self in Hp. cbn [self] in Hp.
  step H.
  match type of H with
  | context [str_operand ?o] => destruct o as [host |]; [| discriminate]
  end.
  do 2 step H. apply call_Val in H. destruct H as (pre & _ & ->).
  cbn [self after_call]. exact Hp.
Qed.

Lemma run_workload_self env fuel w w' :
  run_workload env fuel w = (Val tt, w') -> self w' = self w.
Proof.
  unfold run_workload. intro H. do 6 step H.
  apply poll_logs_self in H. exact H.
Qed.

Lemma prepend (e : event) l rest0 base :
  l = (rest0 ++ base)%list -> e :: l = ((e :: rest0) ++ base)%list.
Proof. intros ->. reflexivity. Qed.

(** With its instance at hand, [teardown] starts by terminating it. *)
Lemma teardown_begins env w i :
  quiet env ->
  instance (self w) = Some i ->
  exists out w' rest,
    teardown env w = (out, w') /\
    trace w' =
      (trace w ++
       [ Enter Mteardown; Print "- terminating instance";
         Call (InstanceTerminate i) (outcome env (tick w) (InstanceTerminate i)) ]
       ++ rest)%list.
Proof.
  intros Q Ei.
  destruct (teardown env w) as [out w'] eqn:E. exists out, w'.
  cut (exists rest0,
          events w' =
            (rest0 ++
             Call (InstanceTerminate i) (outcome env (tick w) (InstanceTerminate i))
             :: Print "- terminating instance" :: Enter Mteardown :: events w)%list).
  { intros [rest0 R]. exists (rev rest0). split; [reflexivity |].
    unfold trace. rewrite R, rev_app_distr. cbn [rev].
    rewrite <- !app_assoc. reflexivity. }
  revert E.
  unfold teardown, teardown_with, bind, enter, print, emit, get_self, attr, ret.
  cbn [self].
  repeat first
    [ rewrite Ei
    | rewrite call_quiet by assumption
    | progress unfold raw_call
    | progress cbn [self log_count events tick gets raise]
    | match goal with
      | |- context [match outcome env ?n ?c with _ => _ end] =>
          destruct (outcome env n c)
      | |- context [match security_group ?l with _ => _ end] =>
          destruct (security_group l)
      | |- context [match key ?l with _ => _ end] =>
          destruct (key l)
      end ];
    (intro H; injection H as <- <-; cbn [events]; eexists;
     repeat first [apply (eq_refl : _ = ([] ++ _)%list) | apply prepend]).
Qed.

Lemma finally_unit (body final : M unit) w w1 :
  body w = (Val tt, w1) -> try_finally body final w = final w1.
Proof.
  unfold try_finally, bind, ret. intros ->.
  destruct (final w1) as [[[] | e |] w2]; reflexivity.
Qed.

(** C6.  The run has reached the final download in state [w1], and the
    download of the results directory raises an exception [e]: [deploy]
    reports the failure in two lines and returns normally, the [finally]
    clause of the script then invokes [teardown], and [teardown] starts
    by terminating the instance that [setup] launched. *)
Theorem results_download_failure_is_reported env fuel wd w1 e :
  quiet env ->
  (Launcher_init env ;; install_handlers ;; print "setting up" ;;
   setup env ;; print "deploying") boot = (Val tt, wd) ->
  (connect env fuel ;; call_ env ScpOpen ;; run_workload env fuel) wd
  = (Val tt, w1) ->
  outcome env (tick w1)
    (ScpGet "/home/ubuntu/oqdata" ("oqdata-" ++ timestamp (self w1)) true)
  = Some e ->
  is_Exception e = true ->
  exists w2 out w3 rest,
    deploy env fuel wd = (Val tt, w2) /\
    trace w2 =
      (trace w1 ++
       [ Print "downloading results";
         Call (ScpGet "/home/ubuntu/oqdata"
                      ("oqdata-" ++ timestamp (self w1)) true) (Some e);
         Print ("Error - could not download results: " ++ str_of_exn e);
         Print "Check aws_log.log for logs of EC2 instance.";
         ScpClose ])%list /\
    run env fuel = (out, w3) /\
    trace w3 =
      (trace w2 ++
       [ Print "tearing down finally";
         Enter Mteardown;
         Print "- terminating instance";
         Call (InstanceTerminate {| instance_id := new_instance_id env |})
              (outcome env (tick w2)
                 (InstanceTerminate {| instance_id := new_instance_id env |})) ]
       ++ rest)%list.
Proof.
  intros Q Hboot Hreach Hout Hexc.
  (* the state in which deploy returns *)
  set (w2 := {| self := self w1; log_count := log_count w1;
                events :=
                  ScpClose
                  :: Print "Check aws_log.log for logs of EC2 instance."
                  :: Print ("Error - could not download results: " ++ str_of_exn e)
                  :: Call (ScpGet "/home/ubuntu/oqdata"
                                  ("oqdata-" ++ timestamp (self w1)) true) (Some e)
                  :: Print "downloading results" :: events w1;
                tick := S (tick w1); gets := gets w1 |}).
  assert (Hdeploy : deploy env fuel wd = (Val tt, w2)).
  { apply bind_Val in Hreach. destruct Hreach as ([] & wa & Ha & Hreach).
    apply bind_Val in Hreach. destruct Hreach as ([] & wb & Hb & Hc).
    unfold deploy, with_scp.
    rewrite (bind_Val_intro _ _ _ _ _ _ _ Ha).
    rewrite (bind_Val_intro _ _ _ _ _ _ _ Hb).
    unfold try_finally. rewrite (bind_Val_intro _ _ _ _ _ _ _ Hc).
    unfold download_results, bind, print, emit, try_except_Exception, get_self.
    cbn [self log_count events tick gets].
    rewrite call_quiet by assumption. unfold raw_call.
    cbn [self log_count events tick gets]. rewrite Hout, Hexc. reflexivity. }
  (* the Launcher object in that state *)
  assert (Hself : instance (self w2)
                  = Some {| instance_id := new_instance_id env |}).
  { apply bind_Val in Hreach. destruct Hreach as ([] & wa & Ha & Hreach).
    apply bind_Val in Hreach. destruct Hreach as ([] & wb & Hb & Hc).
    apply connect_self in Ha. apply call_Val in Hb.
    destruct Hb as (pre & _ & ->). apply run_workload_self in Hc.
    cbn [self after_call] in Hc.
    apply bind_Val in Hboot. destruct Hboot as ([] & w4 & _ & Hboot).
    apply bind_Val in Hboot. destruct Hboot as ([] & w5 & _ & Hboot).
    apply bind_Val in Hboot. destruct Hboot as ([] & w6 & _ & Hboot).
    apply bind_Val in Hboot. destruct Hboot as ([] & w7 & Hs & Hboot).
    apply setup_Val in Hs. destruct Hs as [(a & _ & Hs) _].
    unfold print, emit in Hboot. injection Hboot as <-.
    cbn [self] in Ha. unfold w2. cbn [self].
    rewrite Hc, Ha, Hs. reflexivity. }
  destruct (teardown_begins env
              {| self := self w2; log_count := log_count w2;
                 events := Print "tearing down finally" :: events w2;
                 tick := tick w2; gets := gets w2 |}
              _ Q Hself) as (out & w3 & rest & Ht & Htr).
  exists w2, out, w3, rest.
  split; [exact Hdeploy |].
  split; [unfold trace, w2; cbn [events rev]; rewrite <- !app_assoc; reflexivity |].
  split.
  - apply bind_Val in Hboot. destruct Hboot as ([] & w4 & H4 & Hboot).
    apply bind_Val in Hboot. destruct Hboot as ([] & w5 & H5 & Hboot).
    apply bind_Val in Hboot. destruct Hboot as ([] & w6 & H6 & Hboot).
    apply bind_Val in Hboot. destruct Hboot as ([] & w7 & H7 & H8).
    unfold run, main.
    rewrite (bind_Val_intro _ _ _ _ _ _ _ H4).
    rewrite (bind_Val_intro _ _ _ _ _ _ _ H5).
    assert (Hbody :
              try_except_Exception
                (print "setting up" ;; setup env ;; print "deploying" ;;
                 deploy env fuel)
                (fun e0 => print ("Error - could not run: " ++ str_of_exn e0))
                w5 = (Val tt, w2)).
    { unfold try_except_Exception.
      rewrite (bind_Val_intro _ _ _ _ _ _ _ H6).
      rewrite (bind_Val_intro _ _ _ _ _ _ _ H7).
      rewrite (bind_Val_intro _ _ _ _ _ _ _ H8).
      rewrite Hdeploy. reflexivity. }
    rewrite (finally_unit _ _ _ _ Hbody).
    unfold bind at 1, print, emit. exact Ht.
  - rewrite Htr. unfold trace. cbn [events rev tick].
    rewrite <- !app_assoc. reflexivity.
Qed.

Lemma results_download_failure_is_reported_witness :
  exists w2 out w3 rest,
    deploy env_no_results 2
      (snd ((Launcher_init env_no_results ;; install_handlers ;;
             print "setting up" ;; setup env_no_results ;;
             print "deploying") boot))
    = (Val tt, w2) /\
    trace w2 =
      (trace (snd ((connect env_no_results 2 ;; call_ env_no_results ScpOpen ;;
                    run_workload env_no_results 2)
                     (snd ((Launcher_init env_no_results ;; install_handlers ;;
                            print "setting up" ;; setup env_no_results ;;
                            print "deploying") boot)))) ++
       [ Print "downloading results";
         Call (ScpGet "/home/ubuntu/oqdata" "oqdata-openquake-1450000000" true)
              (Some (Exn SCPException
                       "scp: /home/ubuntu/oqdata: No such file or directory"));
         Print "Error - could not download results: scp: /home/ubuntu/oqdata: No such file or directory";
         Print "Check aws_log.log for logs of EC2 instance.";
         ScpClose ])%list /\
    run env_no_results 2 = (out, w3) /\
    trace w3 =
      (trace w2 ++
       [ Print "tearing down finally";
         Enter Mteardown;
         Print "- terminating instance";
         Call (InstanceTerminate {| instance_id := "i-1" |})
              (outcome env_no_results (tick w2)
                 (InstanceTerminate {| instance_id := "i-1" |})) ]
       ++ rest)%list.
Proof.
  apply (results_download_failure_is_reported env_no_results 2
           (snd ((Launcher_init env_no_results ;; install_handlers ;;
                  print "setting up" ;; setup env_no_results ;;
                  print "deploying") boot))
           (snd ((connect env_no_results 2 ;; call_ env_no_results ScpOpen ;;
                  run_workload env_no_results 2)
                   (snd ((Launcher_init env_no_results ;; install_handlers ;;
                          print "setting up" ;; setup env_no_results ;;
                          print "deploying") boot))))
           (Exn SCPException
              "scp: /home/ubuntu/oqdata: No such file or directory")).
  - intros n c. reflexivity.
  - vm_compute. reflexivity.
  - vm_compute. reflexivity.
  - vm_compute. reflexivity.
  - reflexivity.
Defined.

(** ** How often teardown is invoked when no signal arrives *)

Section Keeps.

Context {X : Type} (f : world -> X).

Lemma keeps_ret A (a : A) : keeps f (ret a).
Proof. intros w out w' H. injection H as <- <-. reflexivity. Qed.

Lemma keeps_raise A e : keeps f (@raise A e).
Proof. intros w out w' H. injection H as <- <-. reflexivity. Qed.

Lemma keeps_spin A : keeps f (@spin A).
Proof. intros w out w' H. injection H as <- <-. reflexivity. Qed.

Lemma keeps_eval A (r : res A) : keeps f (eval r).
Proof. intros w out w' H. injection H as <- <-. reflexivity. Qed.

Lemma keeps_get_self : keeps f get_self.
Proof. intros w out w' H. injection H as <- <-. reflexivity. Qed.

Lemma keeps_get_log_count : keeps f get_log_count.
Proof. intros w out w' H. injection H as <- <-. reflexivity. Qed.

Lemma keeps_attr A (o : option A) name : keeps f (attr o name).
Proof. destruct o; [apply keeps_ret | apply keeps_raise]. Qed.

Lemma keeps_str_operand o : keeps f (str_operand o).
Proof. destruct o; [apply keeps_ret | apply keeps_raise]. Qed.

Lemma keeps_bind A B (m : M A) (k : A -> M B) :
  keeps f m -> (forall a, keeps f (k a)) -> keeps f (bind m k).
Proof.
  intros Km Kk w out w' H. unfold bind in H.
  destruct (m w) as [[a | e |] w1] eqn:E; apply Km in E.
  - apply Kk in H. congruence.
  - injection H as <- <-. exact E.
  - injection H as <- <-. exact E.
Qed.

Lemma keeps_try_except A (body handler : M A) :
  keeps f body -> keeps f handler -> keeps f (try_except body handler).
Proof.
  intros Kb Kh w out w' H. unfold try_except in H.
  destruct (body w) as [[a | e |] w1] eqn:E; apply Kb in E.
  - injection H as <- <-. exact E.
  - apply Kh in H. congruence.
  - injection H as <- <-. exact E.
Qed.

Lemma keeps_try_except_Exception A (body : M A) handler :
  keeps f body -> (forall e, keeps f (handler e)) ->
  keeps f (try_except_Exception body handler).
Proof.
  intros Kb Kh w out w' H. unfold try_except_Exception in H.
  destruct (body w) as [[a | e |] w1] eqn:E; apply Kb in E.
  - injection H as <- <-. exact E.
  - destruct (is_Exception e).
    + apply Kh in H. congruence.
    + injection H as <- <-. exact E.
  - injection H as <- <-. exact E.
Qed.

Lemma keeps_try_finally A (body : M A) final :
  keeps f body -> keeps f final -> keeps f (try_finally body final).
Proof.
  intros Kb Kf w out w' H. unfold try_finally in H.
  destruct (body w) as [[a | e |] w1] eqn:E; apply Kb in E.
  - revert H. intro H.
    assert (K : keeps f (_ <- final ;; ret a))
      by (apply keeps_bind; [exact Kf | intro; apply keeps_ret]).
    apply K in H. congruence.
  - assert (K : keeps f (_ <- final ;; @raise A e))
      by (apply keeps_bind; [exact Kf | intro; apply keeps_raise]).
    apply K in H. congruence.
  - injection H as <- <-. exact E.
Qed.

End Keeps.

Lemma keeps_teardowns_emit e :
  is_enter Mteardown e = false -> keeps teardowns (emit e).
Proof.
  intros E w out w' H. injection H as <- <-.
  unfold teardowns, invocations. cbn [events filter]. rewrite E. reflexivity.
Qed.

Lemma keeps_teardowns_set_self l : keeps teardowns (set_self l).
Proof. intros w out w' H. injection H as <- <-. reflexivity. Qed.

Lemma keeps_teardowns_set_log_count n : keeps teardowns (set_log_count n).
Proof. intros w out w' H. injection H as <- <-. reflexivity. Qed.

Lemma keeps_teardowns_raw_call env c : keeps teardowns (raw_call env c).
Proof.
  intros w out w' H. unfold raw_call in H.
  destruct (outcome env (tick w) c); injection H as <- <-; reflexivity.
Qed.

Lemma keeps_teardowns_call env c :
  quiet env -> keeps teardowns (call_ env c).
Proof.
  intros Q w out w' H. rewrite call_quiet in H by assumption.
  revert H. apply keeps_teardowns_raw_call.
Qed.

Ltac keeps Q :=
  repeat lazymatch goal with
    | |- keeps _ (bind _ _) => apply keeps_bind; [| intro]
    | |- keeps _ (try_except _ _) => apply keeps_try_except
    | |- keeps _ (try_finally _ _) => apply keeps_try_finally
    | |- keeps _ (try_except_Exception _ _) =>
        apply keeps_try_except_Exception; [| intro]
    | |- keeps _ (ret _) => apply keeps_ret
    | |- keeps _ (raise _) => apply keeps_raise
    | |- keeps _ spin => apply keeps_spin
    | |- keeps _ (eval _) => apply keeps_eval
    | |- keeps _ get_self => apply keeps_get_self
    | |- keeps _ get_log_count => apply keeps_get_log_count
    | |- keeps _ (attr _ _) => apply keeps_attr
    | |- keeps _ (str_operand _) => apply keeps_str_operand
    | |- keeps _ (set_self _) => apply keeps_teardowns_set_self
    | |- keeps _ (set_log_count _) => apply keeps_teardowns_set_log_count
    | |- keeps _ (raw_call _ _) => apply keeps_teardowns_raw_call
    | |- keeps _ (call_ _ _) => apply keeps_teardowns_call; exact Q
    | |- keeps _ (emit _) => apply keeps_teardowns_emit; reflexivity
    | |- keeps _ (if ?b then _ else _) => destruct b
    | |- keeps _ (match ?o with Some _ => _ | None => _ end) => destruct o
    end.

Lemma keeps_teardowns_setup env : quiet env -> keeps teardowns (setup env).
Proof.
  intro Q.
  unfold setup, enter, print, set_key, set_security_group, set_instance,
    set_ip_address.
  keeps Q.
Qed.

Lemma keeps_teardowns_print_entries items :
  forall pos, keeps teardowns (print_entries pos items).
Proof.
  induction items as [| x items IH]; intro pos; cbn [print_entries]; keeps I.
  apply IH.
Qed.

Lemma keeps_teardowns_poll_once env :
  quiet env -> keeps teardowns (poll_once env).
Proof.
  intro Q.
  unfold poll_once, poll_status, requests_get, digest, response_json,
    download_log.
  keeps Q; try apply keeps_teardowns_print_entries.
  intros w out w' H. injection H as <- <-. reflexivity.
Qed.

Lemma keeps_teardowns_poll_logs env fuel :
  quiet env -> keeps teardowns (poll_logs env fuel).
Proof.
  intro Q. induction fuel as [| fuel IH]; cbn [poll_logs].
  - apply keeps_spin.
  - apply keeps_bind; [apply keeps_teardowns_call; exact Q | intros _].
    apply keeps_bind; [apply keeps_teardowns_poll_once, Q | intro b].
    destruct b; [apply keeps_ret | exact IH].
Qed.

Lemma keeps_teardowns_poll_ssh env fuel :
  quiet env -> keeps teardowns (poll_ssh env fuel).
Proof.
  intro Q. induction fuel as [| fuel IH]; cbn [poll_ssh]; unfold probe_ssh;
    keeps Q.
  exact IH.
Qed.

Lemma keeps_teardowns_deploy env fuel :
  quiet env -> keeps teardowns (deploy env fuel).
Proof.
  intro Q.
  unfold deploy, connect, with_scp, run_workload, download_results, enter,
    print.
  keeps Q.
  - apply keeps_teardowns_poll_ssh, Q.
  - apply keeps_teardowns_poll_logs, Q.
Qed.

(** Without signals, one invocation of [teardown] is one more in the
    record. *)
Lemma teardown_counts_once env w out w' :
  quiet env ->
  teardown env w = (out, w') -> teardowns w' = S (teardowns w).
Proof.
  intros Q. unfold teardown, teardown_with, enter. unfold bind at 1, emit at 1.
  intro H.
  match type of H with
  | ?m ?w0 = _ =>
      assert (K : keeps teardowns m) by (unfold print; keeps Q);
      apply K in H
  end.
  rewrite H. reflexivity.
Qed.

Lemma invocations_rev m l : invocations m (rev l) = invocations m l.
Proof.
  unfold invocations. induction l as [| e l IH]; [reflexivity |].
  cbn [rev filter]. rewrite filter_app, length_app, IH. cbn [filter].
  destruct (is_enter m e); cbn [List.length]; lia.
Qed.

Lemma Launcher_init_boot env :
  outcome env 0 (Boto3Resource "ec2") = None ->
  exists w, Launcher_init env boot = (Val tt, w) /\ teardowns w = 0.
Proof.
  intro Hb. unfold Launcher_init, bind, get_self, set_self, raw_call.
  cbn [self log_count events tick gets boot]. rewrite Hb.
  eexists. split; reflexivity.
Qed.

(** On the two exit paths without signal, normal completion and an
    exception in [setup] or [deploy], [teardown] is invoked exactly once:
    this holds for every run that ends, once the Launcher is built. *)
Lemma teardown_once_without_signal env fuel out w' :
  quiet env ->
  outcome env 0 (Boto3Resource "ec2") = None ->
  run env fuel = (out, w') ->
  out <> Spin ->
  invocations Mteardown (trace w') = 1.
Proof.
  intros Q Hb H N. unfold trace. rewrite invocations_rev.
  change (teardowns w' = 1).
  destruct (Launcher_init_boot env Hb) as (w0 & Hi & T0).
  unfold run, main in H. rewrite (bind_Val_intro _ _ _ _ _ _ _ Hi) in H.
  set (w1 := {| self := self w0; log_count := log_count w0;
                events := InstallHandler SIGINT :: InstallHandler SIGTERM
                          :: events w0;
                tick := tick w0; gets := gets w0 |}).
  assert (E0 : install_handlers w0 = (Val tt, w1)) by reflexivity.
  assert (E1 : teardowns w1 = teardowns w0) by reflexivity.
  rewrite (bind_Val_intro _ _ _ _ _ _ _ E0) in H.
  unfold try_finally in H.
  match type of H with
  | context [try_except_Exception ?b ?h w1] =>
      destruct (try_except_Exception b h w1) as [[[] | e |] w2] eqn:E2;
      (assert (K2 : keeps teardowns (try_except_Exception b h))
         by (unfold print; keeps Q;
             [apply keeps_teardowns_setup, Q | apply keeps_teardowns_deploy, Q]));
      apply K2 in E2
  end.
  - unfold bind at 1 2, print at 1, emit at 1 in H.
    match type of H with
    | context [teardown env ?x] =>
        destruct (teardown env x) as [[[] | e |] w3] eqn:T;
          apply teardown_counts_once in T; try exact Q;
          injection H as <- <-; rewrite T;
          change (S (teardowns w2) = 1); congruence
    end.
  - unfold bind at 1 2, print at 1, emit at 1 in H.
    match type of H with
    | context [teardown env ?x] =>
        destruct (teardown env x) as [[[] | e1 |] w3] eqn:T;
          apply teardown_counts_once in T; try exact Q;
          injection H as <- <-; rewrite T;
          change (S (teardowns w2) = 1); congruence
    end.
  - injection H as <- <-. contradiction.
Qed.

(** * Further properties of the script *)

(** ** The session name *)

Lemma str_of_int_injective a b : str_of_int a = str_of_int b -> a = b.
Proof.
  unfold str_of_int. intro H.
  assert (N : forall z, Z.to_int z <> Decimal.Pos Decimal.Nil /\
                        Z.to_int z <> Decimal.Neg Decimal.Nil).
  { intros [| p | p]; simpl; split; try discriminate;
      intro Q; injection Q as Q; exact (Unsigned.to_uint_nonnil _ Q). }
  assert (E : Some (Z.to_int a) = Some (Z.to_int b)).
  { rewrite <- (NilZero.isi (Z.to_int a)) by apply N.
    rewrite <- (NilZero.isi (Z.to_int b)) by apply N.
    rewrite H. reflexivity. }
  injection E as E. rewrite <- (DecimalZ.of_to a), <- (DecimalZ.of_to b), E.
  reflexivity.
Qed.

(** X1.  Whatever else happens in the constructor, two Launchers get the
    same session name exactly when they are built in the same second: the
    name tells runs apart only down to the second. *)
Theorem session_name_per_second env1 env2 w1 w2 :
  timestamp (self (snd (Launcher_init env1 w1)))
  = timestamp (self (snd (Launcher_init env2 w2)))
  <-> now env1 = now env2.
Proof.
  assert (T : forall env w,
             timestamp (self (snd (Launcher_init env w)))
             = "openquake-" ++ str_of_int (now env)).
  { intros env w. unfold Launcher_init, bind, get_self, set_self, raw_call.
    cbn [self log_count events tick gets].
    destruct (outcome env (tick w) (Boto3Resource "ec2")); reflexivity. }
  rewrite !T. split.
  - intro H. cbn [append] in H. injection H as H.
    apply str_of_int_injective, H.
  - intros ->. reflexivity.
Qed.

(** ** The constructor and the exits of the script *)

(** X2.  When [boto3.resource('ec2')] raises, the script ends with that
    exception before the handlers are installed: nothing is provisioned
    and [teardown] is not invoked. *)
Theorem constructor_failure_ends_the_run env fuel e :
  outcome env 0 (Boto3Resource "ec2") = Some e ->
  fst (run env fuel) = Exc e /\
  trace (snd (run env fuel)) = [Call (Boto3Resource "ec2") (Some e)] /\
  invocations Mteardown (trace (snd (run env fuel))) = 0.
Proof.
  intro H.
  assert (R : run env fuel =
              (Exc e,
               {| self := {| timestamp := "openquake-" ++ str_of_int (now env);
                             key := None; security_group := None;
                             instance := None; ip_address := None |};
                  log_count := 0;
                  events := [Call (Boto3Resource "ec2") (Some e)];
                  tick := 1; gets := 0 |})).
  { unfold run, main, Launcher_init, bind, get_self, set_self, raw_call.
    cbn [self log_count events tick gets boot key security_group instance
         ip_address blank]. rewrite H. reflexivity. }
  rewrite R. repeat split.
Qed.

Lemma constructor_failure_ends_the_run_witness :
  fst (run {| now := 0; new_key_material := ""; new_group_id := "";
              new_instance_id := ""; public_ip := None;
              outcome := fun _ _ => Some (Exn ClientError "NoRegionError");
              status := fun _ => None; signal_at := fun _ _ => None |} 1)
  = Exc (Exn ClientError "NoRegionError").
Proof.
  apply (constructor_failure_ends_the_run
           {| now := 0; new_key_material := ""; new_group_id := "";
              new_instance_id := ""; public_ip := None;
              outcome := fun _ _ => Some (Exn ClientError "NoRegionError");
              status := fun _ => None; signal_at := fun _ _ => None |} 1
           (Exn ClientError "NoRegionError")).
  reflexivity.
Defined.

(** ** The signal handler *)

Lemma lower_ascii_y c : lower_ascii c = "y"%char -> c = "y"%char \/ c = "Y"%char.
Proof.
  destruct c as [[|] [|] [|] [|] [|] [|] [|] [|]]; vm_compute; intro H;
    try discriminate; auto.
Qed.

Lemma lower_y a : lower a = "y" <-> a = "y" \/ a = "Y".
Proof.
  split.
  - destruct a as [| c [| c' rest]]; simpl; intro H; try discriminate.
    injection H as H. destruct (lower_ascii_y c H) as [-> | ->]; auto.
  - intros [-> | ->]; reflexivity.
Qed.

(** X3.  The handler goes on to tear down only when the answer to its
    prompt is [y] or [Y].  After any other answer ([yes], [n], nothing) it
    returns to the interrupted program having done nothing but prompt;
    after [y] or [Y] it never returns: it raises what [func] raised, or
    [SystemExit] with code 0 when [func] returned. *)
Theorem handler_confirms_on_y_only func a w :
  (a <> "y" /\ a <> "Y" ->
   signal_term_handler func a w =
     (Val tt,
      {| self := self w; log_count := log_count w;
         events := Input "Are you sure you want to exit? (y or n): " a
                   :: events w;
         tick := tick w; gets := gets w |})) /\
  (a = "y" \/ a = "Y" ->
   forall out w1,
     func {| self := self w; log_count := log_count w;
             events := Print "tearing down"
                       :: Input "Are you sure you want to exit? (y or n): " a
                       :: events w;
             tick := tick w; gets := gets w |} = (out, w1) ->
     signal_term_handler func a w =
       (match out with
        | Val _ => Exc (Exn SystemExit "0")
        | Exc e => Exc e
        | Spin => Spin
        end, w1)).
Proof.
  unfold signal_term_handler, raw_input, bind, emit, ret, print, sys_exit, raise.
  cbn [self log_count events tick gets]. split.
  - intros [N1 N2]. destruct (String.eqb (lower a) "y") eqn:E; [| reflexivity].
    apply String.eqb_eq, lower_y in E. destruct E; contradiction.
  - intros Y out w1 F. apply lower_y, String.eqb_eq in Y. rewrite Y.
    unfold emit. cbn [self log_count events tick gets]. rewrite F.
    destruct out as [[] | e |]; reflexivity.
Qed.

Lemma handler_confirms_on_y_only_witness :
  signal_term_handler (teardown_with (raw_call env_ok)) "yes" provisioned =
    (Val tt,
     {| self := self provisioned; log_count := log_count provisioned;
        events := Input "Are you sure you want to exit? (y or n): " "yes"
                  :: events provisioned;
        tick := tick provisioned; gets := gets provisioned |}) /\
  signal_term_handler (ret tt) "Y" provisioned =
    (Exc (Exn SystemExit "0"),
     {| self := self provisioned; log_count := log_count provisioned;
        events := Print "tearing down"
                  :: Input "Are you sure you want to exit? (y or n): " "Y"
                  :: events provisioned;
        tick := tick provisioned; gets := gets provisioned |}).
Proof.
  split.
  - apply (handler_confirms_on_y_only
             (teardown_with (raw_call env_ok)) "yes" provisioned).
    split; discriminate.
  - apply (proj2 (handler_confirms_on_y_only (ret tt) "Y" provisioned)
             (or_intror eq_refl) (Val tt)).
    reflexivity.
Defined.

(** ** A small logic of relations kept by the program *)

Section Respects.

Variable R : world -> world -> Prop.
Hypothesis R_refl : forall w, R w w.
Hypothesis R_trans : forall w1 w2 w3, R w1 w2 -> R w2 w3 -> R w1 w3.

Lemma respects_still A (m : M A) :
  (forall w, snd (m w) = w) -> respects R m.
Proof.
  intros S w out w' H. specialize (S w). rewrite H in S. simpl in S.
  subst w'. apply R_refl.
Qed.

Lemma respects_bind A B (m : M A) (k : A -> M B) :
  respects R m -> (forall a, respects R (k a)) -> respects R (bind m k).
Proof.
  intros Km Kk w out w' H. unfold bind in H.
  destruct (m w) as [[a | e |] w1] eqn:E; apply Km in E.
  - apply Kk in H. eapply R_trans; eassumption.
  - injection H as <- <-. exact E.
  - injection H as <- <-. exact E.
Qed.

Lemma respects_try_except A (body handler : M A) :
  respects R body -> respects R handler -> respects R (try_except body handler).
Proof.
  intros Kb Kh w out w' H. unfold try_except in H.
  destruct (body w) as [[a | e |] w1] eqn:E; apply Kb in E.
  - injection H as <- <-. exact E.
  - apply Kh in H. eapply R_trans; eassumption.
  - injection H as <- <-. exact E.
Qed.

Lemma respects_try_except_Exception A (body : M A) handler :
  respects R body -> (forall e, respects R (handler e)) ->
  respects R (try_except_Exception body handler).
Proof.
  intros Kb Kh w out w' H. unfold try_except_Exception in H.
  destruct (body w) as [[a | e |] w1] eqn:E; apply Kb in E.
  - injection H as <- <-. exact E.
  - destruct (is_Exception e).
    + apply Kh in H. eapply R_trans; eassumption.
    + injection H as <- <-. exact E.
  - injection H as <- <-. exact E.
Qed.

Lemma respects_try_finally A (body : M A) final :
  respects R body -> respects R final -> respects R (try_finally body final).
Proof.
  intros Kb Kf w out w' H. unfold try_finally, bind, ret, raise in H.
  destruct (body w) as [[a | e |] w1] eqn:E; apply Kb in E.
  - destruct (final w1) as [[[] | e' |] w2] eqn:F; apply Kf in F;
      injection H as <- <-; eapply R_trans; eassumption.
  - destruct (final w1) as [[[] | e' |] w2] eqn:F; apply Kf in F;
      injection H as <- <-; eapply R_trans; eassumption.
  - injection H as <- <-. exact E.
Qed.

Lemma respects_step (g : world -> world) :
  (forall w, R w (g w)) -> respects R (fun w => (Val tt, g w)).
Proof. intros S w out w' H. injection H as <- <-. apply S. Qed.

Lemma respects_raw_call env c :
  (forall w o, R w {| self := self w; log_count := log_count w;
                      events := Call c o :: events w; tick := S (tick w);
                      gets := gets w |}) ->
  respects R (raw_call env c).
Proof.
  intros S w out w' H. unfold raw_call in H.
  destruct (outcome env (tick w) c); injection H as <- <-; apply S.
Qed.

End Respects.

(** Decomposes a goal [respects R m] along the structure of [m]; [Hr] and
    [Ht] are the reflexivity and transitivity of [R], [leaf] deals with
    the steps that change the world. *)
Ltac respects_with Hr Ht leaf :=
  repeat lazymatch goal with
    | |- respects _ (bind _ _) => apply (respects_bind _ Ht); [| intro]
    | |- respects _ (try_except _ _) => apply (respects_try_except _ Ht)
    | |- respects _ (try_finally _ _) => apply (respects_try_finally _ Ht)
    | |- respects _ (try_except_Exception _ _) =>
        apply (respects_try_except_Exception _ Ht); [| intro]
    | |- respects _ (ret _) => apply (respects_still _ Hr); reflexivity
    | |- respects _ (raise _) => apply (respects_still _ Hr); reflexivity
    | |- respects _ spin => apply (respects_still _ Hr); reflexivity
    | |- respects _ (eval _) => apply (respects_still _ Hr); reflexivity
    | |- respects _ get_self => apply (respects_still _ Hr); reflexivity
    | |- respects _ get_log_count => apply (respects_still _ Hr); reflexivity
    | |- respects _ (attr ?o _) =>
        destruct o; apply (respects_still _ Hr); reflexivity
    | |- respects _ (str_operand ?o) =>
        destruct o; apply (respects_still _ Hr); reflexivity
    | |- respects _ (response_json ?o) =>
        destruct o; apply (respects_still _ Hr); reflexivity
    | |- respects _ (if ?b then _ else _) => destruct b
    | |- respects _ (set_key _) => unfold set_key
    | |- respects _ (set_security_group _) => unfold set_security_group
    | |- respects _ (set_instance _) => unfold set_instance
    | |- respects _ (set_ip_address _) => unfold set_ip_address
    | |- respects _ (print _) => unfold print
    | |- respects _ (enter _) => unfold enter
    | |- respects _ (sys_exit _) => unfold sys_exit
    | |- respects _ (raw_input _ _) => unfold raw_input
    | |- _ => progress leaf
    end.

(** *** The record only grows *)

Lemma extends_refl w : extends w w.
Proof. exists []. reflexivity. Qed.

Lemma extends_trans w1 w2 w3 : extends w1 w2 -> extends w2 w3 -> extends w1 w3.
Proof.
  intros [l1 E1] [l2 E2]. exists (l2 ++ l1)%list.
  rewrite E2, E1, app_assoc. reflexivity.
Qed.

Lemma extends_emit e : respects extends (emit e).
Proof. intros w out w' H. injection H as <- <-. exists [e]. reflexivity. Qed.

Lemma extends_set_self l : respects extends (set_self l).
Proof. intros w out w' H. injection H as <- <-. exists []. reflexivity. Qed.

Lemma extends_set_log_count n : respects extends (set_log_count n).
Proof. intros w out w' H. injection H as <- <-. exists []. reflexivity. Qed.

Lemma extends_raw_call env c : respects extends (raw_call env c).
Proof.
  apply respects_raw_call. intros w o. exists [Call c o]. reflexivity.
Qed.

Ltac extends_leaf :=
  first [ apply extends_emit | apply extends_set_self
        | apply extends_set_log_count | apply extends_raw_call ].

Ltac extends_auto :=
  respects_with extends_refl extends_trans ltac:(extends_leaf).

Lemma extends_handler_teardown env a :
  respects extends (signal_term_handler (teardown_with (raw_call env)) a).
Proof. unfold signal_term_handler, teardown_with. extends_auto. Qed.

Lemma extends_call env c : respects extends (call_ env c).
Proof.
  intros w out w' H. unfold call_ in H.
  destruct (signal_at env (tick w) c) as [a |].
  - revert H. apply (respects_bind _ extends_trans);
      [apply extends_handler_teardown | intro; apply extends_raw_call].
  - revert H. apply extends_raw_call.
Qed.

Ltac extends_full :=
  respects_with extends_refl extends_trans
    ltac:(first [extends_leaf | apply extends_call]).

Lemma extends_teardown env : respects extends (teardown env).
Proof. unfold teardown, teardown_with. extends_full. Qed.

Lemma extends_setup env : respects extends (setup env).
Proof. unfold setup. extends_full. Qed.

Lemma extends_probe_ssh env : respects extends (probe_ssh env).
Proof. unfold probe_ssh. extends_full. Qed.

Lemma extends_poll_ssh env fuel : respects extends (poll_ssh env fuel).
Proof.
  induction fuel as [| fuel IH]; cbn [poll_ssh]; [extends_full |].
  apply (respects_bind _ extends_trans); [apply extends_probe_ssh | intros []].
  - extends_full.
  - extends_full. exact IH.
Qed.

Lemma extends_print_entries items :
  forall pos, respects extends (print_entries pos items).
Proof.
  induction items as [| x items IH]; intro pos; cbn [print_entries];
    extends_full.
  apply IH.
Qed.

Lemma extends_poll_once env : respects extends (poll_once env).
Proof.
  unfold poll_once, poll_status, requests_get, digest, download_log.
  extends_full; try apply extends_print_entries.
  intros w out w' H. injection H as <- <-. exists []. reflexivity.
Qed.

Lemma extends_poll_logs env fuel : respects extends (poll_logs env fuel).
Proof.
  induction fuel as [| fuel IH]; cbn [poll_logs]; [extends_full |].
  apply (respects_bind _ extends_trans); [apply extends_call | intros _].
  apply (respects_bind _ extends_trans); [apply extends_poll_once | intros []].
  - extends_full.
  - exact IH.
Qed.

Lemma extends_deploy env fuel : respects extends (deploy env fuel).
Proof.
  unfold deploy, connect, with_scp, run_workload, download_results.
  extends_full.
  - apply extends_poll_ssh.
  - apply extends_poll_logs.
Qed.

(** ** teardown in a run that ends normally *)

(** What a [teardown] that returns has added to the record, newest
    first: its entry, then, declined prompts apart, exactly its three
    progress lines and its five calls, each where the source has it. *)
Lemma teardown_record env w w' :
  teardown env w = (Val tt, w') ->
  exists i g k t,
    instance (self w) = Some i /\ security_group (self w) = Some g /\
    key (self w) = Some k /\ self w' = self w /\
    events w' = (t ++ Enter Mteardown :: events w)%list /\
    without_prompts t =
      [ Call (OsRemove (timestamp (self w) ++ ".pem")) None;
        Call (KeyPairDelete k) None;
        Print "- deleting SSH key";
        Call (SecurityGroupDelete g) None;
        Print "- deleting security group";
        Call (WaitUntilTerminated i) None;
        Call (InstanceTerminate i) None;
        Print "- terminating instance" ].
Proof.
  intro H0.
  assert (X : exists t, events w' = (t ++ Enter Mteardown :: events w)%list).
  { revert H0. unfold teardown, teardown_with, enter.
    unfold bind at 1, emit at 1. intro H0.
    match type of H0 with
    | ?m ?x = _ =>
        assert (K : respects extends m) by extends_full; apply K in H0
    end.
    exact H0. }
  destruct X as [t Et].
  revert H0. unfold teardown, teardown_with. intro H.
  step H. step H. step H. simpl in H.
  destruct (instance (self w)) as [i |] eqn:Ei; [| discriminate].
  simpl in H. step H. step H. step H. simpl in H. rewrite Ei in H.
  step H. step H. step H. step H. simpl in H.
  destruct (security_group (self w)) as [g |] eqn:Eg; [| discriminate].
  step H. step H. step H. step H. simpl in H.
  destruct (key (self w)) as [k |] eqn:Ek; [| discriminate].
  step H. step H. step H. apply call_Val in H. destruct H as (pre3 & P3 & ->).
  do 3 eexists. exists t.
  split; [reflexivity |]. split; [reflexivity |]. split; [reflexivity |].
  split; [reflexivity |]. split; [exact Et |].
  apply (f_equal without_prompts) in Et.
  rewrite without_prompts_app in Et.
  cbn [events after_call] in Et.
  repeat first [ rewrite without_prompts_inputs in Et by assumption
               | rewrite without_prompts_cons in Et by reflexivity ].
  symmetry in Et.
  apply app_inv_tail with (l := Enter Mteardown :: without_prompts (events w)).
  exact Et.
Qed.

(** C4.  In every run of the script that ends normally, and so in every
    successful run, the record ends with the [teardown] of the [finally]
    clause, and from the entry of that [teardown] to the end of the run
    it holds, declined prompts apart, exactly this: the instance is
    terminated and its termination awaited, then the security group is
    deleted, then the remote key pair, and last the local private-key
    file is removed.  Each of the five calls returned, no other call is
    made in between, and the resources are those the Launcher holds. *)
Theorem teardown_in_dependency_order env fuel w' :
  run env fuel = (Val tt, w') ->
  exists earlier final i g k,
    instance (self w') = Some i /\ security_group (self w') = Some g /\
    key (self w') = Some k /\
    trace w' =
      (earlier ++ Print "tearing down finally" :: Enter Mteardown :: final)%list /\
    without_prompts final =
      [ Print "- terminating instance";
        Call (InstanceTerminate i) None;
        Call (WaitUntilTerminated i) None;
        Print "- deleting security group";
        Call (SecurityGroupDelete g) None;
        Print "- deleting SSH key";
        Call (KeyPairDelete k) None;
        Call (OsRemove (timestamp (self w') ++ ".pem")) None ].
Proof.
  unfold run, main. intro H.
  apply bind_Val in H. destruct H as ([] & w1 & _ & H).
  apply bind_Val in H. destruct H as ([] & w2 & _ & H).
  apply try_finally_Val in H. destruct H as (w3 & _ & H).
  step H. apply teardown_record in H.
  destruct H as (i & g & k & t & Ei & Eg & Ek & Es & Et & Ef).
  cbn [self events] in *.
  exists (rev (events w3)), (rev t), i, g, k. rewrite Es.
  split; [exact Ei |]. split; [exact Eg |]. split; [exact Ek |]. split.
  - unfold trace. rewrite Et, rev_app_distr. cbn [rev].
    rewrite <- !app_assoc. reflexivity.
  - rewrite without_prompts_rev, Ef. reflexivity.
Qed.

Lemma teardown_in_dependency_order_witness :
  exists earlier final i g k,
    instance (self (snd (run env_ok 2))) = Some i /\
    security_group (self (snd (run env_ok 2))) = Some g /\
    key (self (snd (run env_ok 2))) = Some k /\
    trace (snd (run env_ok 2)) =
      (earlier ++ Print "tearing down finally" :: Enter Mteardown :: final)%list /\
    without_prompts final =
      [ Print "- terminating instance";
        Call (InstanceTerminate i) None;
        Call (WaitUntilTerminated i) None;
        Print "- deleting security group";
        Call (SecurityGroupDelete g) None;
        Print "- deleting SSH key";
        Call (KeyPairDelete k) None;
        Call (OsRemove (timestamp (self (snd (run env_ok 2))) ++ ".pem")) None ].
Proof.
  apply (teardown_in_dependency_order env_ok 2 (snd (run env_ok 2))).
  vm_compute. reflexivity.
Defined.

(** ** The readiness gate of deploy *)

Lemma framed_probe_ssh env : framed (probe_ssh env).
Proof. unfold probe_ssh. framed. apply framed_call. Qed.

Lemma probe_ssh_true env w w' :
  probe_ssh env w = (Val true, w') ->
  exists host earlier,
    ip_address (self w) = Some host /\
    calls_of (events w') =
      (SocketConnect host 22 1, None) :: (earlier ++ calls_of (events w))%list.
Proof.
  unfold probe_ssh, try_except.
  match goal with
  | |- context [match ?m w with _ => _ end] =>
      destruct (m w) as [[b | e |] w1] eqn:E
  end; intro H; try discriminate.
  injection H as -> <-. step E.
  match type of E with
    | context [str_operand ?o] =>
        destruct o as [host |] eqn:Hip; [| discriminate]
    end.
    step E. step E. injection E as <-.
    eexists. exists []. split; [reflexivity |].
    cbn [events after_call calls_of app]. rewrite calls_of_inputs by assumption.
    reflexivity.
Qed.

Lemma poll_ssh_Val env fuel :
  forall w w',
    poll_ssh env fuel w = (Val tt, w') ->
    exists host earlier,
      ip_address (self w) = Some host /\
      calls_of (events w') =
        (SocketConnect host 22 1, None) :: (earlier ++ calls_of (events w))%list.
Proof.
  induction fuel as [| fuel IH]; intros w w' H; [discriminate |].
  cbn [poll_ssh] in H. unfold bind at 1 in H.
  destruct (probe_ssh env w) as [[[|] | e |] w1] eqn:Ep; try discriminate.
  - injection H as <-. apply (probe_ssh_true env _ _ Ep).
  - pose proof (extends_probe_ssh env _ _ _ Ep) as [l1 E1].
    apply framed_probe_ssh in Ep. destruct Ep as [(S1 & _) _].
    unfold bind at 1, emit in H. unfold bind at 1 in H.
    match type of H with
    | context [call_ env (Sleep 1) ?x] =>
        destruct (call_ env (Sleep 1) x) as [[[] | e |] w2] eqn:Ec;
          try discriminate;
          pose proof (extends_call env _ _ _ _ Ec) as [l2 E2];
          apply framed_call in Ec; destruct Ec as [(S2 & _) _]
    end.
    apply IH in H. destruct H as (host & earlier & Hip & Hc).
    cbn [self events] in S2, E2. rewrite S2, S1 in Hip.
    exists host, (earlier ++ calls_of l2 ++ calls_of l1)%list.
    split; [exact Hip |].
    rewrite Hc, E2. cbn [app]. rewrite calls_of_app. cbn [calls_of].
    rewrite E1, calls_of_app, <- !app_assoc. reflexivity.
Qed.

(** X4.  [deploy] opens the remote shell only after a raw connection to
    port 22 of the instance has succeeded: whenever the part of [deploy]
    before the [with] block completes, its last two calls are a socket
    connect to that port that returned and the [ssh.connect] to the same
    host, as user [ubuntu] with the private-key file of the session. *)
Theorem ssh_connect_only_after_probe env fuel w w' :
  connect env fuel w = (Val tt, w') ->
  exists host earlier,
    ip_address (self w) = Some host /\
    calls_of (trace w') =
      (calls_of (trace w) ++ earlier ++
       [ (SocketConnect host 22 1, None);
         (SshConnect host 22 "ubuntu" (timestamp (self w) ++ ".pem"), None) ])%list.
Proof.
  unfold connect. intro H. do 2 step H.
  apply bind_Val in H. destruct H as ([] & w1 & Hp & H).
  pose proof (poll_ssh_self _ _ _ _ _ Hp) as Hs. cbn [self] in Hs.
  apply poll_ssh_Val in Hp. destruct Hp as (host & earlier & Hip & Hc).
  cbn [self events calls_of] in Hip, Hc.
  step H. rewrite Hs, Hip in H. cbn [str_operand] in H.
  do 2 step H. apply call_Val in H. destruct H as (pre & P & ->).
  match type of Hip with _ = Some ?h => exists h, (rev earlier) end.
  split; [exact Hip |].
  unfold trace. rewrite !calls_of_rev. cbn [events after_call calls_of].
  rewrite calls_of_inputs by assumption. cbn [calls_of]. rewrite Hc.
  cbn [rev]. rewrite rev_app_distr, <- !app_assoc. reflexivity.
Qed.

Lemma ssh_connect_only_after_probe_witness :
  exists host earlier,
    ip_address (self provisioned) = Some host /\
    calls_of (trace (snd (connect env_ok 1 provisioned))) =
      (calls_of (trace provisioned) ++ earlier ++
       [ (SocketConnect host 22 1, None);
         (SshConnect host 22 "ubuntu"
            (timestamp (self provisioned) ++ ".pem"), None) ])%list.
Proof.
  apply (ssh_connect_only_after_probe env_ok 1 provisioned
           (snd (connect env_ok 1 provisioned))).
  vm_compute. reflexivity.
Defined.

(** X5.  The probe is retried until it succeeds: when the first probes
    fail with the exceptions [es], of whatever class, and the next one
    returns, the loop swallows each failure, closes the socket, sleeps one
    second and probes again, and it ends on the first success. *)
Theorem probe_retried_until_success env host es :
  forall fuel w,
    quiet env ->
    ip_address (self w) = Some host ->
    (forall n, outcome env n (Sleep 1) = None) ->
    (forall j e, nth_error es j = Some e ->
                 outcome env (tick w + 2 * j) (SocketConnect host 22 1) = Some e) ->
    outcome env (tick w + 2 * List.length es) (SocketConnect host 22 1) = None ->
    List.length es < fuel ->
    exists w',
      poll_ssh env fuel w = (Val tt, w') /\
      trace w' =
        (trace w ++ failed_probes host es
         ++ [Call (SocketConnect host 22 1) None])%list.
Proof.
  induction es as [| e es IH]; intros fuel w Q Hip Hs Hf Hok Hfuel;
    (destruct fuel as [| fuel]; [inversion Hfuel |]);
    cbn [poll_ssh]; unfold probe_ssh, bind, try_except, get_self;
    rewrite Hip; cbn [str_operand ret];
    rewrite (call_quiet env (SocketConnect host 22 1) w Q);
    unfold raw_call at 1.
  - cbn [List.length] in Hok. rewrite Nat.mul_0_r, Nat.add_0_r in Hok.
    rewrite Hok. eexists. split; [reflexivity |].
    unfold trace. cbn [events rev failed_probes flat_map app]. reflexivity.
  - pose proof (Hf 0 e eq_refl) as H0.
    rewrite Nat.mul_0_r, Nat.add_0_r in H0. rewrite H0.
    unfold emit. cbn [ret self log_count events tick gets].
    match goal with
    | |- context [call_ env (Sleep 1) ?x] =>
        rewrite (call_quiet env (Sleep 1) x Q)
    end.
    unfold raw_call at 1.
    cbn [self log_count events tick gets]. rewrite Hs.
    match goal with
    | |- context [poll_ssh env fuel ?x] =>
        destruct (IH fuel x Q) as (w' & Hp & Ht)
    end.
    + exact Hip.
    + exact Hs.
    + intros j e' Hj. cbn [tick].
      replace (S (S (tick w)) + 2 * j) with (tick w + 2 * S j) by lia.
      apply Hf. exact Hj.
    + cbn [tick]. cbn [List.length] in Hok.
      replace (S (S (tick w)) + 2 * List.length es)
        with (tick w + 2 * S (List.length es)) by lia.
      exact Hok.
    + cbn [List.length] in Hfuel. lia.
    + exists w'. rewrite Hp. split; [reflexivity |].
      rewrite Ht. unfold trace. cbn [events rev failed_probes flat_map].
      rewrite <- !app_assoc. reflexivity.
Qed.

Lemma probe_retried_until_success_witness :
  exists w',
    poll_ssh env_booting 3 provisioned = (Val tt, w') /\
    trace w' =
      (trace provisioned
       ++ failed_probes "1.2.3.4"
            [Exn SocketError "Connection refused";
             Exn SocketError "Connection refused"]
       ++ [Call (SocketConnect "1.2.3.4" 22 1) None])%list.
Proof.
  apply (probe_retried_until_success env_booting "1.2.3.4"
           [Exn SocketError "Connection refused";
            Exn SocketError "Connection refused"] 3 provisioned).
  - intros n c. reflexivity.
  - reflexivity.
  - intro n. reflexivity.
  - intros j e H.
    destruct j as [| [| j]]; cbn in H;
      [injection H as <- | injection H as <- | destruct j; discriminate];
      reflexivity.
  - reflexivity.
  - cbn. lia.
Defined.

(** X6.  The probing loop has no bound on its attempts: while the probe of
    port 22 keeps failing (or the instance has no address to probe) and
    the sleeps return, the loop never ends, and [deploy] with it: it
    neither returns nor raises. *)
Theorem probe_never_gives_up env fuel w :
  quiet env ->
  (forall n host, outcome env n (SocketConnect host 22 1) <> None) ->
  (forall n, outcome env n (Sleep 1) = None) ->
  fst (poll_ssh env fuel w) = Spin /\ fst (deploy env fuel w) = Spin.
Proof.
  intros Q Hf Hs.
  assert (P : forall fuel w, fst (poll_ssh env fuel w) = Spin).
  { clear fuel w. induction fuel as [| fuel IH]; intro w; [reflexivity |].
    cbn [poll_ssh]. unfold probe_ssh, bind, try_except, get_self.
    destruct (ip_address (self w)) as [host |]; cbn [str_operand ret raise].
    - rewrite (call_quiet env (SocketConnect host 22 1) w Q).
      unfold raw_call at 1.
      destruct (outcome env (tick w) (SocketConnect host 22 1)) eqn:E;
        [| exfalso; exact (Hf _ _ E)].
      unfold emit. cbn [ret self log_count events tick gets].
      match goal with
      | |- context [call_ env (Sleep 1) ?x] =>
          rewrite (call_quiet env (Sleep 1) x Q)
      end.
      unfold raw_call at 1.
      cbn [self log_count events tick gets]. rewrite Hs. apply IH.
    - unfold emit. cbn [ret self log_count events tick gets].
      match goal with
      | |- context [call_ env (Sleep 1) ?x] =>
          rewrite (call_quiet env (Sleep 1) x Q)
      end.
      unfold raw_call at 1.
      cbn [self log_count events tick gets]. rewrite Hs. apply IH. }
  split; [apply P |].
  unfold deploy, connect, bind, enter, print, emit.
  match goal with
  | |- context [poll_ssh env fuel ?x] =>
      specialize (P fuel x); destruct (poll_ssh env fuel x) as [r w1]
  end.
  cbn [fst] in P. subst r. reflexivity.
Qed.

Lemma probe_never_gives_up_witness :
  fst (poll_ssh env_unreachable 7 provisioned) = Spin /\
  fst (deploy env_unreachable 7 provisioned) = Spin.
Proof.
  apply (probe_never_gives_up env_unreachable 7 provisioned).
  - intros n c. reflexivity.
  - intros n host. discriminate.
  - intro n. reflexivity.
Defined.

(** ** The exits of the polling loop *)

Lemma digest_Val r w b w' :
  digest r w = (Val b, w') ->
  exists j logs d,
    r = Some j /\ getitem j "logs" = Val logs /\
    getitem j "done" = Val d /\ b = truthy d.
Proof.
  unfold digest. intro H.
  apply bind_Val in H. destruct H as (j & w1 & H1 & H).
  destruct r as [j' |]; [| discriminate]. injection H1 as -> ->.
  apply bind_Val in H. destruct H as (logs & w2 & H2 & H).
  unfold eval in H2. injection H2 as H2 ->.
  apply bind_Val in H. destruct H as (n & w3 & _ & H).
  apply bind_Val in H. destruct H as (c & w4 & _ & H).
  apply bind_Val in H. destruct H as ([] & w5 & _ & H).
  apply bind_Val in H. destruct H as (d & w6 & H6 & H).
  unfold eval in H6. injection H6 as H6 ->.
  injection H as <- _.
  exists j, logs, d. repeat split; assumption.
Qed.

Lemma poll_status_Val env w b w' :
  poll_status env w = (Val b, w') ->
  exists j logs d,
    status env (gets w) = Some j /\ getitem j "logs" = Val logs /\
    getitem j "done" = Val d /\ b = truthy d /\ gets w' = S (gets w).
Proof.
  unfold poll_status. intro H.
  apply bind_Val in H. destruct H as (l & w1 & H1 & H).
  unfold get_self in H1. injection H1 as <- <-.
  apply bind_Val in H. destruct H as (host & w2 & H2 & H).
  destruct (ip_address (self w)); [| discriminate]. injection H2 as <- <-.
  apply bind_Val in H. destruct H as (r & w3 & H3 & H).
  unfold requests_get in H3.
  apply bind_Val in H3. destruct H3 as ([] & w4 & H4 & H3).
  apply framed_call in H4. destruct H4 as [(_ & _ & G & _) _].
  injection H3 as <- <-.
  pose proof (digest_spec _ _ _ _ H) as (_ & G' & _). cbn [gets] in G'.
  apply digest_Val in H. destruct H as (j & logs & d & Hr & Hl & Hd & Hb).
  exists j, logs, d. rewrite <- G, Hr, G', G. repeat split; assumption.
Qed.

(** X7.  One iteration of the polling loop never raises, whatever the
    endpoint answers and whatever fails (the GET, the parse, a field
    access, the download of the log file, even an exit requested at the
    prompt in the middle of them): once the sleep has returned, it either
    breaks the loop or goes on to the next iteration. *)
Theorem iteration_never_raises env w :
  exists b, fst (poll_once env w) = Val b.
Proof.
  destruct (poll_once env w) as [out w'] eqn:E.
  apply poll_once_spec in E. destruct E as (b & _ & -> & _).
  exists b. reflexivity.
Qed.

(** X8.  The polling loop ends normally only on an answer that holds a
    log list and a [done] field that is true in the sense of Python: the
    last answer received by a loop that returned is such an answer. *)
Theorem loop_ends_only_on_done env fuel :
  forall w w',
    poll_logs env fuel w = (Val tt, w') ->
    exists k j logs d,
      gets w' = S k /\ status env k = Some j /\
      getitem j "logs" = Val logs /\
      getitem j "done" = Val d /\ truthy d = true.
Proof.
  induction fuel as [| fuel IH]; intros w w' H; [discriminate |].
  cbn [poll_logs] in H.
  apply bind_Val in H. destruct H as ([] & w1 & _ & H).
  apply bind_Val in H. destruct H as (b & w2 & Hp & H).
  destruct b.
  - injection H as <-.
    apply poll_once_spec in Hp. destruct Hp as (b & _ & Hb & _ & Ht).
    injection Hb as <-. specialize (Ht eq_refl).
    apply poll_status_Val in Ht.
    destruct Ht as (j & logs & d & Hs & Hl & Hd & Hb & Hg).
    exists (gets w1), j, logs, d. repeat split; auto.
  - apply IH in H. exact H.
Qed.

Lemma loop_ends_only_on_done_witness :
  exists k j logs d,
    gets (snd (poll_logs env_ok 2 provisioned)) = S k /\
    status env_ok k = Some j /\
    getitem j "logs" = Val logs /\
    getitem j "done" = Val d /\ truthy d = true.
Proof.
  apply (loop_ends_only_on_done env_ok 2 provisioned
           (snd (poll_logs env_ok 2 provisioned))).
  vm_compute. reflexivity.
Defined.

(** X9.  An answer without a usable log list does not end the loop, even
    when it reports completion: [json['logs']] is read first, its failure
    is swallowed and the iteration goes on to the next. *)
Theorem done_without_logs_is_ignored env w j e :
  status env (gets w) = Some j ->
  getitem j "logs" = Exc e ->
  fst (poll_once env w) = Val false.
Proof.
  intros Hs Hl.
  destruct (poll_once env w) as [out w'] eqn:E.
  apply poll_once_spec in E. destruct E as (b & _ & -> & _ & Ht).
  destruct b; [| reflexivity].
  specialize (Ht eq_refl). apply poll_status_Val in Ht.
  destruct Ht as (j' & logs & d & Hs' & Hl' & _).
  rewrite Hs in Hs'. injection Hs' as <-. rewrite Hl in Hl'. discriminate.
Qed.

Lemma done_without_logs_is_ignored_witness :
  fst (poll_once env_done_no_logs provisioned) = Val false.
Proof.
  apply (done_without_logs_is_ignored env_done_no_logs provisioned
           (PDict [("done", PBool true)]) (Exn KeyError "logs"));
    reflexivity.
Defined.

(** X10.  Without signals, the only exception that leaves the loop that
    polls for the logs is one raised by [time.sleep(1)]: everything else
    in the body of that loop sits under a bare [except], and the loop that
    raises [e] ends on a sleep that raised [e]. *)
Theorem polling_loop_raises_only_from_sleep env fuel w e w' :
  quiet env ->
  poll_logs env fuel w = (Exc e, w') ->
  exists before, events w' = Call (Sleep 1) (Some e) :: before.
Proof.
  intros Q. revert w.
  induction fuel as [| fuel IH]; intros w H; [discriminate |].
  cbn [poll_logs] in H. unfold bind at 1 in H.
  rewrite (call_quiet env (Sleep 1) w Q) in H. unfold raw_call in H.
  destruct (outcome env (tick w) (Sleep 1)) as [e2 |].
  - injection H as <- <-. eexists. reflexivity.
  - unfold bind at 1 in H.
    match type of H with
    | context [poll_once env ?x] =>
        destruct (poll_once env x) as [out w2] eqn:Ep;
        apply poll_once_spec in Ep; destruct Ep as (b & _ & -> & _)
    end.
    destruct b; [discriminate |]. apply IH in H. exact H.
Qed.

Lemma polling_loop_raises_only_from_sleep_witness :
  exists before,
    events (snd (poll_logs env_sleepless 3 provisioned))
    = Call (Sleep 1) (Some (Exn IOError "Interrupted system call")) :: before.
Proof.
  apply (polling_loop_raises_only_from_sleep env_sleepless 3 provisioned
           (Exn IOError "Interrupted system call")
           (snd (poll_logs env_sleepless 3 provisioned))).
  - intros n c. reflexivity.
  - vm_compute. reflexivity.
Defined.

(** X11.  The polling loop has no bound either: while no answer of the
    endpoint carries a true [done] and the sleeps return, it never ends,
    whatever else fails. *)
Theorem polling_never_gives_up env fuel :
  quiet env ->
  (forall n, outcome env n (Sleep 1) = None) ->
  (forall k j d, status env k = Some j -> getitem j "done" = Val d ->
                 truthy d = false) ->
  forall w, fst (poll_logs env fuel w) = Spin.
Proof.
  intros Q Hs Hd. induction fuel as [| fuel IH]; intro w; [reflexivity |].
  cbn [poll_logs]. unfold bind at 1.
  rewrite (call_quiet env (Sleep 1) w Q). unfold raw_call. rewrite Hs.
  unfold bind at 1.
  match goal with
  | |- context [poll_once env ?x] =>
      destruct (poll_once env x) as [out w2] eqn:Ep;
      apply poll_once_spec in Ep; destruct Ep as (b & _ & -> & _ & Ht)
  end.
  destruct b; [| apply IH].
  specialize (Ht eq_refl). apply poll_status_Val in Ht.
  destruct Ht as (j & logs & d & Hj & _ & Hdone & Hb & _).
  rewrite (Hd _ _ _ Hj Hdone) in Hb. discriminate.
Qed.

Lemma polling_never_gives_up_witness :
  fst (poll_logs env_never_done 9 provisioned) = Spin.
Proof.
  apply (polling_never_gives_up env_never_done 9).
  - intros n c. reflexivity.
  - intro n. reflexivity.
  - intros k j d H1 H2. injection H1 as <-. cbn in H2. injection H2 as <-.
    reflexivity.
Defined.

(** ** A growing log is printed once, in order *)














(** ** setup *)

(** X13.  A [setup] that completes has made exactly the ten calls of
    [setup_steps], all returning, in this order: the key pair is created
    and its material written to the private-key file, which is then
    restricted to mode 0600; the security group is created and its two
    rules authorised; one instance is requested, in that group and with
    that key, all three named by the session; its running state is
    awaited and its address read. *)
Theorem setup_calls_in_order env w w' :
  setup env w = (Val tt, w') ->
  calls_of (trace w') =
    (calls_of (trace w)
     ++ map returned (setup_steps env (timestamp (self w))))%list.
Proof.
  unfold setup. intro H.
  do 7 step H.
  apply bind_Val in H. destruct H as ([] & w1 & Hw & H).
  apply try_finally_Val in Hw. destruct Hw as (w2 & Hb & Hf).
  do 2 step Hb. apply call_Val in Hb. destruct Hb as (pre1 & P1 & ->).
  step Hf. unfold emit in Hf. injection Hf as <-. simp_world H.
  do 24 step H.
  destruct (public_ip env) as [a |] eqn:Ea; [| discriminate].
  step H. unfold print, emit in H. injection H as <-.
  unfold trace. rewrite !calls_of_rev. cbn [events].
  repeat (cbn [calls_of]; rewrite ?calls_of_inputs by assumption).
  cbn [setup_steps map rev returned]. rewrite <- !app_assoc. reflexivity.
Qed.

Lemma setup_calls_in_order_witness :
  calls_of (trace (snd (setup env_ok constructed))) =
    (calls_of (trace constructed)
     ++ map returned (setup_steps env_ok (timestamp (self constructed))))%list.
Proof.
  apply (setup_calls_in_order env_ok constructed
           (snd (setup env_ok constructed))).
  vm_compute. reflexivity.
Defined.

Ltac at_tick Hpre k :=
  try (let H := fresh "Hat" in
       pose proof (Hpre k _ eq_refl) as H;
       rewrite Nat.add_comm in H; cbn [Nat.add] in H).

(** X14.  Without signals, [setup] stops at its first call that raises:
    when the calls [pre] return and the next one, [c], raises [e], [setup]
    raises [e] and makes none of the calls [post] that follow.  A field of
    the Launcher then holds a resource exactly when the call that creates
    it is among those that returned, and the address is not set. *)
Theorem setup_stops_at_first_failure env w pre c post e :
  quiet env ->
  setup_steps env (timestamp (self w)) = (pre ++ c :: post)%list ->
  (forall j c', nth_error pre j = Some c' ->
                outcome env (tick w + j) c' = None) ->
  outcome env (tick w + List.length pre) c = Some e ->
  exists w',
    setup env w = (Exc e, w') /\
    calls_of (trace w') =
      (calls_of (trace w) ++ map returned pre ++ [(c, Some e)])%list /\
    key (self w') =
      (if Nat.leb 1 (List.length pre)
       then Some {| key_name := timestamp (self w);
                    key_material := new_key_material env |}
       else key (self w)) /\
    security_group (self w') =
      (if Nat.leb 5 (List.length pre)
       then Some {| group_id := new_group_id env |}
       else security_group (self w)) /\
    instance (self w') =
      (if Nat.leb 8 (List.length pre)
       then Some {| instance_id := new_instance_id env |}
       else instance (self w)) /\
    ip_address (self w') = ip_address (self w).
Proof.
  intros Q Hsplit Hpre Hc. unfold setup_steps in Hsplit.
  rewrite Nat.add_comm in Hc.
  destruct pre as [| c0 [| c1 [| c2 [| c3 [| c4 [| c5 [| c6 [| c7 [| c8
                    [| c9 [| c10 pre]]]]]]]]]]];
    cbn [app] in Hsplit; injection Hsplit; intros; subst;
    try discriminate; try (destruct pre; discriminate);
    cbn [List.length Nat.add] in Hc;
    at_tick Hpre 0; at_tick Hpre 1; at_tick Hpre 2; at_tick Hpre 3;
    at_tick Hpre 4; at_tick Hpre 5; at_tick Hpre 6; at_tick Hpre 7;
    at_tick Hpre 8; clear Hpre;
    unfold setup, bind, enter, print, emit, get_self, set_key,
      set_security_group, set_instance, set_ip_address, set_self, attr, ret,
      try_finally, raise;
    cbn [self log_count events tick gets timestamp key security_group
         instance ip_address];
    crank Q;
    (eexists; split; [reflexivity |]);
    cbn [self key security_group instance ip_address List.length Nat.leb];
    (split; [| repeat split]);
    unfold trace; cbn [events rev]; rewrite !calls_of_app; cbn [calls_of map];
    rewrite ?app_nil_r, <- ?app_assoc; reflexivity.
Qed.

Lemma setup_stops_at_first_failure_witness :
  exists w',
    setup env_never_running constructed
    = (Exc (Exn ClientError "Max attempts exceeded"), w') /\
    calls_of (trace w') =
      (calls_of (trace constructed)
       ++ map returned (firstn 8 (setup_steps env_never_running
                                    "openquake-1450000000"))
       ++ [(WaitUntilRunning {| instance_id := "i-1" |},
            Some (Exn ClientError "Max attempts exceeded"))])%list /\
    key (self w') =
      Some {| key_name := "openquake-1450000000"; key_material := "PEM" |} /\
    security_group (self w') = Some {| group_id := "sg-1" |} /\
    instance (self w') = Some {| instance_id := "i-1" |} /\
    ip_address (self w') = None.
Proof.
  apply (setup_stops_at_first_failure env_never_running constructed
           (firstn 8 (setup_steps env_never_running "openquake-1450000000"))
           (WaitUntilRunning {| instance_id := "i-1" |})
           [DescribeInstance "i-1"]
           (Exn ClientError "Max attempts exceeded")).
  - intros n c. reflexivity.
  - reflexivity.
  - intros j c' H.
    do 8 (destruct j as [| j]; [cbn in H; injection H as <-; reflexivity |]).
    destruct j; discriminate.
  - reflexivity.
Defined.

(** X15.  An instance without a public address makes [setup] fail at its
    very last statement, on the [None] it tries to print, after every
    resource was created: the run reports the error, skips [deploy], and
    [teardown] releases the key pair, the security group and the instance
    that [setup] had recorded. *)
Theorem instance_without_address env fuel :
  quiet env ->
  (forall n c, outcome env n c = None) ->
  public_ip env = None ->
  exists w',
    run env fuel = (Val tt, w') /\
    invocations Mdeploy (trace w') = 0 /\
    In (Print "Error - could not run: cannot concatenate 'str' and 'NoneType' objects")
       (trace w') /\
    calls_of (trace w') =
      map returned
        (Boto3Resource "ec2"
         :: setup_steps env ("openquake-" ++ str_of_int (now env))
         ++ teardown_steps
              {| timestamp := "openquake-" ++ str_of_int (now env);
                 key := None; security_group := None; instance := None;
                 ip_address := None |}
              {| instance_id := new_instance_id env |}
              {| group_id := new_group_id env |}
              {| key_name := "openquake-" ++ str_of_int (now env);
                 key_material := new_key_material env |}).
Proof.
  intros Q Hok Hip.
  unfold run, main, Launcher_init, install_handlers, setup, teardown,
    teardown_with, bind, enter, print, emit, get_self, set_key,
    set_security_group, set_instance, set_ip_address, set_self, attr, ret,
    try_finally, try_except_Exception, raise, boot, blank.
  cbn [self log_count events tick gets timestamp key security_group
       instance ip_address].
  repeat progress
    (rewrite ?(call_quiet _ _ _ Q); try unfold raw_call; try unfold bind, ret;
     cbv beta iota;
     cbn [self log_count events tick gets timestamp key security_group
          instance ip_address];
     rewrite ?Hok, ?Hip; simpl).
  eexists. split; [reflexivity |]. unfold trace. cbn [events rev app].
  split; [reflexivity |]. split.
  - cbn [In]. auto 40.
  - reflexivity.
Qed.

Lemma instance_without_address_witness :
  exists w',
    run env_no_address 1 = (Val tt, w') /\
    invocations Mdeploy (trace w') = 0 /\
    In (Print "Error - could not run: cannot concatenate 'str' and 'NoneType' objects")
       (trace w') /\
    calls_of (trace w') =
      map returned
        (Boto3Resource "ec2"
         :: setup_steps env_no_address
              ("openquake-" ++ str_of_int (now env_no_address))
         ++ teardown_steps
              {| timestamp := "openquake-" ++ str_of_int (now env_no_address);
                 key := None; security_group := None; instance := None;
                 ip_address := None |}
              {| instance_id := new_instance_id env_no_address |}
              {| group_id := new_group_id env_no_address |}
              {| key_name := "openquake-" ++ str_of_int (now env_no_address);
                 key_material := new_key_material env_no_address |}).
Proof.
  apply (instance_without_address env_no_address 1).
  - intros n c. reflexivity.
  - intros n c. reflexivity.
  - reflexivity.
Defined.

(** ** How the script ends *)

Lemma raises_bind A B (m : M A) (k : A -> M B) :
  raises_exceptions m -> (forall a, raises_exceptions (k a)) ->
  raises_exceptions (bind m k).
Proof.
  intros Km Kk w e w' H. unfold bind in H.
  destruct (m w) as [[a | e1 |] w1] eqn:E.
  - exact (Kk a _ _ _ H).
  - injection H as <- <-. exact (Km _ _ _ E).
  - discriminate.
Qed.

Lemma raises_try_except A (body handler : M A) :
  raises_exceptions handler -> raises_exceptions (try_except body handler).
Proof.
  intros Kh w e w' H. unfold try_except in H.
  destruct (body w) as [[a | e1 |] w1].
  - discriminate.
  - exact (Kh _ _ _ H).
  - discriminate.
Qed.

Lemma raises_try_except_Exception A (body : M A) handler :
  raises_exceptions body -> (forall e, raises_exceptions (handler e)) ->
  raises_exceptions (try_except_Exception body handler).
Proof.
  intros Kb Kh w e w' H. unfold try_except_Exception in H.
  destruct (body w) as [[a | e1 |] w1] eqn:E.
  - discriminate.
  - rewrite (Kb _ _ _ E) in H. exact (Kh _ _ _ _ H).
  - discriminate.
Qed.

Lemma raises_try_finally A (body : M A) final :
  raises_exceptions body -> raises_exceptions final ->
  raises_exceptions (try_finally body final).
Proof.
  intros Kb Kf w e w' H. unfold try_finally, bind, ret, raise in H.
  destruct (body w) as [[a | e1 |] w1] eqn:E.
  - destruct (final w1) as [[[] | e2 |] w2] eqn:F; try discriminate.
    injection H as <- <-. exact (Kf _ _ _ F).
  - destruct (final w1) as [[[] | e2 |] w2] eqn:F; try discriminate;
      injection H as <- <-; [exact (Kb _ _ _ E) | exact (Kf _ _ _ F)].
  - discriminate.
Qed.

Lemma raises_call env c :
  quiet env -> ordinary env -> raises_exceptions (call_ env c).
Proof.
  intros Q O w e w' H. rewrite (call_quiet env c w Q) in H.
  unfold raw_call in H.
  destruct (outcome env (tick w) c) as [e1 |] eqn:E; [| discriminate].
  injection H as <- _. exact (O _ _ _ E).
Qed.

Ltac raises_leaf :=
  let H := fresh "H" in
  intros ? ? ? H;
  unfold ret, raise, spin, get_self, get_log_count, set_self, set_log_count,
    emit in H;
  first [discriminate H | injection H as <- _; reflexivity].

Ltac raises Q O :=
  repeat lazymatch goal with
    | |- raises_exceptions (bind _ _) => apply raises_bind; [| intro]
    | |- raises_exceptions (try_except _ _) => apply raises_try_except
    | |- raises_exceptions (try_finally _ _) => apply raises_try_finally
    | |- raises_exceptions (try_except_Exception _ _) =>
        apply raises_try_except_Exception; [| intro]
    | |- raises_exceptions (call_ _ _) => apply raises_call; [exact Q | exact O]
    | |- raises_exceptions (attr ?o _) => destruct o; unfold attr
    | |- raises_exceptions (str_operand ?o) => destruct o; unfold str_operand
    | |- raises_exceptions (if ?b then _ else _) => destruct b
    | |- raises_exceptions (set_key _) => unfold set_key
    | |- raises_exceptions (set_security_group _) => unfold set_security_group
    | |- raises_exceptions (set_instance _) => unfold set_instance
    | |- raises_exceptions (set_ip_address _) => unfold set_ip_address
    | |- raises_exceptions (print _) => unfold print
    | |- raises_exceptions (enter _) => unfold enter
    | |- _ => progress raises_leaf
    end.

Lemma raises_setup env :
  quiet env -> ordinary env -> raises_exceptions (setup env).
Proof. intros Q O. unfold setup. raises Q O. Qed.

Lemma raises_poll_ssh env fuel :
  quiet env -> ordinary env -> raises_exceptions (poll_ssh env fuel).
Proof.
  intros Q O. induction fuel as [| fuel IH]; cbn [poll_ssh]; [raises Q O |].
  unfold probe_ssh. raises Q O. exact IH.
Qed.

Lemma raises_poll_logs env fuel :
  quiet env -> ordinary env -> raises_exceptions (poll_logs env fuel).
Proof.
  intros Q O. induction fuel as [| fuel IH]; cbn [poll_logs]; [raises Q O |].
  unfold poll_once, download_log. raises Q O. exact IH.
Qed.

Lemma raises_deploy env fuel :
  quiet env -> ordinary env -> raises_exceptions (deploy env fuel).
Proof.
  intros Q O.
  unfold deploy, connect, with_scp, run_workload, download_results.
  raises Q O.
  - apply raises_poll_ssh; assumption.
  - apply raises_poll_logs; assumption.
Qed.

(** X16.  Without signals, and with collaborators that fail only with
    exceptions of class [Exception], how the script ends is decided by
    [teardown] alone: whatever [setup] and [deploy] raise is printed and
    dropped, and the result of the run is the result of the [teardown] of
    the [finally] clause. *)
Theorem run_ends_as_teardown_does env fuel out w' :
  quiet env ->
  ordinary env ->
  outcome env 0 (Boto3Resource "ec2") = None ->
  run env fuel = (out, w') ->
  out <> Spin ->
  exists w1,
    teardown env w1 = (out, w') /\
    (exists l, events w1 = Print "tearing down finally" :: l).
Proof.
  intros Q O Hb H N.
  destruct (Launcher_init_boot env Hb) as (w0 & Hi & _).
  unfold run, main in H. rewrite (bind_Val_intro _ _ _ _ _ _ _ Hi) in H.
  set (w1 := {| self := self w0; log_count := log_count w0;
                events := InstallHandler SIGINT :: InstallHandler SIGTERM
                          :: events w0;
                tick := tick w0; gets := gets w0 |}).
  assert (E0 : install_handlers w0 = (Val tt, w1)) by reflexivity.
  rewrite (bind_Val_intro _ _ _ _ _ _ _ E0) in H.
  unfold try_finally in H.
  match type of H with
  | context [try_except_Exception ?b ?h w1] =>
      assert (K : raises_exceptions b)
        by (raises Q O; [apply raises_setup | apply raises_deploy];
            assumption);
      destruct (try_except_Exception b h w1) as [[[] | e |] w2] eqn:E2
  end.
  - unfold bind at 1 2, print at 1, emit at 1, ret in H.
    match type of H with
    | context [teardown env ?x] =>
        exists x; destruct (teardown env x) as [[[] | e |] w3] eqn:T;
          injection H as <- <-; (split; [reflexivity | eexists; reflexivity])
    end.
  - unfold try_except_Exception in E2.
    match type of E2 with
    | context [match ?m w1 with _ => _ end] =>
        destruct (m w1) as [[[] | e1 |] w3] eqn:E3; try discriminate
    end.
    rewrite (K _ _ _ E3) in E2. discriminate.
  - injection H as <- <-. contradiction.
Qed.

Lemma run_ends_as_teardown_does_witness :
  exists w1,
    teardown env_no_group w1
    = (Exc (Exn AttributeError
              "'NoneType' object has no attribute 'terminate'"),
       snd (run env_no_group 1)) /\
    (exists l, events w1 = Print "tearing down finally" :: l).
Proof.
  apply (run_ends_as_teardown_does env_no_group 1).
  - intros n c. reflexivity.
  - intros n c e H. destruct c; try discriminate H.
    injection H as <-. reflexivity.
  - reflexivity.
  - vm_compute. reflexivity.
  - discriminate.
Defined.

(** ** Exit requests that are lost *)

Lemma teardowns_extends w w' : extends w w' -> teardowns w <= teardowns w'.
Proof.
  intros [l E]. unfold teardowns, invocations.
  rewrite E, filter_app, length_app. lia.
Qed.

Lemma handler_teardown_counts env w out w' :
  teardown_with (raw_call env) w = (out, w') ->
  teardowns w' = S (teardowns w).
Proof.
  unfold teardown_with, enter. unfold bind at 1, emit at 1. intro H.
  match type of H with
  | ?m ?w0 = _ =>
      assert (K : keeps teardowns m)
        by (unfold print;
            repeat lazymatch goal with
              | |- keeps _ (bind _ _) => apply keeps_bind; [| intro]
              | |- keeps _ get_self => apply keeps_get_self
              | |- keeps _ (attr _ _) => apply keeps_attr
              | |- keeps _ (raw_call _ _) => apply keeps_teardowns_raw_call
              | |- keeps _ (emit _) => apply keeps_teardowns_emit; reflexivity
              end);
      apply K in H
  end.
  rewrite H. reflexivity.
Qed.

(** A call interrupted by a signal that the operator confirms is not made:
    the handler tears down and the call raises in its place. *)
Lemma call_confirmed env c w a :
  signal_at env (tick w) c = Some a ->
  lower a = "y" ->
  exists e w',
    call_ env c w = (Exc e, w') /\ same_locals w w' /\
    teardowns w' = S (teardowns w).
Proof.
  intros Hs Hy. unfold call_. rewrite Hs.
  unfold signal_term_handler, raw_input.
  unfold bind at 1 2 3, emit at 1, ret at 1.
  rewrite Hy. cbn [String.eqb Ascii.eqb Bool.eqb].
  unfold bind at 1 2, print at 1, emit at 1.
  match goal with
  | |- context [teardown_with (raw_call env) ?x] =>
      destruct (teardown_with (raw_call env) x) as [[[] | e |] w1] eqn:T;
        pose proof (handler_teardown_counts _ _ _ _ T) as Hc;
        apply (framed_teardown_with (raw_call env)
                 (fun c0 => framed_raw_call env c0)) in T;
        destruct T as [(L1 & L2 & L3 & L4) N]
  end.
  - eexists _, _. split; [reflexivity |]. split; [| exact Hc].
    repeat split; assumption.
  - eexists _, _. split; [reflexivity |]. split; [| exact Hc].
    repeat split; assumption.
  - contradiction.
Qed.

(** The download of the log file at the end of an iteration: the call
    is made and its failure swallowed, unless an exit confirmed at the
    prompt at that very moment takes its place, which is swallowed as
    well. *)
Lemma download_log_attempt env w out w' :
  download_log env w = (out, w') ->
  out = Val tt /\
  ((forall a, signal_at env (tick w) (ScpGet "/tmp/aws_log.log" "." false)
              = Some a -> a <> "y" /\ a <> "Y") ->
   exists o,
     calls_of (trace w') =
       (calls_of (trace w)
        ++ [(ScpGet "/tmp/aws_log.log" "." false, o)])%list) /\
  (forall a, signal_at env (tick w) (ScpGet "/tmp/aws_log.log" "." false)
             = Some a -> a = "y" \/ a = "Y" ->
   teardowns w' = S (teardowns w)).
Proof.
  destruct (signal_at env (tick w) (ScpGet "/tmp/aws_log.log" "." false))
    as [a |] eqn:Hs.
  - destruct (String.eqb (lower a) "y") eqn:E.
    + apply String.eqb_eq in E.
      destruct (call_confirmed env _ w a Hs E) as (e & w2 & Hc & L & T).
      unfold download_log, try_except. rewrite Hc. intro H.
      injection H as <- <-. split; [reflexivity |]. split.
      * intro D. destruct (D a eq_refl) as [N1 N2].
        apply lower_y in E. destruct E; contradiction.
      * intros a' _ _. exact T.
    + unfold download_log, try_except, call_. rewrite Hs.
      unfold signal_term_handler, raw_input.
      unfold bind at 1 2 3, emit at 1, ret at 1. rewrite E.
      unfold ret at 1, raw_call. cbn [self log_count events tick gets].
      destruct (outcome env (tick w) (ScpGet "/tmp/aws_log.log" "." false));
        intro H; injection H as <- <-;
        (split; [reflexivity |]); (split;
          [ intros _; eexists; unfold trace; cbn [events rev];
            rewrite !calls_of_app; cbn [calls_of]; rewrite app_nil_r;
            reflexivity
          | intros a' Ha' Y; injection Ha' as <-; apply lower_y in Y;
            rewrite Y in E; discriminate ]).
  - unfold download_log, try_except, call_. rewrite Hs. unfold raw_call.
    destruct (outcome env (tick w) (ScpGet "/tmp/aws_log.log" "." false));
      intro H; injection H as <- <-;
      (split; [reflexivity |]); (split;
        [ intros _; eexists; unfold trace; cbn [events rev];
          rewrite !calls_of_app; cbn [calls_of]; reflexivity
        | intros a' Ha'; discriminate ]).
Qed.

(** C8, as amended.  In every environment, an iteration that does not
    observe the completion flag goes on to the download of
    [/tmp/aws_log.log] into the working directory, whatever the poll did:
    the [scp.get] is its last call, whatever that call does, unless an
    exit confirmed at the prompt at that very moment runs [teardown] in
    its place; either way the iteration goes on to the next.  The
    iteration that observes the flag makes the GET and leaves the loop
    without attempting the download. *)
Theorem log_download_unless_done env w out w' :
  poll_once env w = (out, w') ->
  match out with
  | Val true =>
      exists host,
        calls_of (trace w') =
          (calls_of (trace w)
           ++ [(HttpGet ("http://" ++ host ++ ":8080"), None)])%list
  | Val false =>
      fst (poll_status env w) <> Val true /\
      ((forall a,
          signal_at env (tick (snd (poll_status env w)))
            (ScpGet "/tmp/aws_log.log" "." false) = Some a ->
          a <> "y" /\ a <> "Y") ->
       exists o,
         calls_of (trace w') =
           (calls_of (trace (snd (poll_status env w)))
            ++ [(ScpGet "/tmp/aws_log.log" "." false, o)])%list) /\
      (forall a,
          signal_at env (tick (snd (poll_status env w)))
            (ScpGet "/tmp/aws_log.log" "." false) = Some a ->
          a = "y" \/ a = "Y" ->
          teardowns w' = S (teardowns (snd (poll_status env w))))
  | _ => False
  end.
Proof.
  unfold poll_once, bind, try_except.
  destruct (poll_status env w) as [[[|] | e |] w1] eqn:Ep; cbn [ret fst snd].
  - intro H. injection H as <- <-.
    apply poll_status_calls in Ep.
    destruct Ep as (host & _ & E). exists host.
    unfold trace. rewrite !calls_of_rev, E. reflexivity.
  - destruct (download_log env w1) as [r w2] eqn:Ed.
    apply download_log_attempt in Ed. destruct Ed as (-> & A & B).
    intro H. injection H as <- <-.
    split; [discriminate |]. split; assumption.
  - destruct (download_log env w1) as [r w2] eqn:Ed.
    apply download_log_attempt in Ed. destruct Ed as (-> & A & B).
    intro H. injection H as <- <-.
    split; [discriminate |]. split; assumption.
  - apply poll_status_spec in Ep. destruct Ep as (_ & N & _). contradiction.
Qed.

Lemma log_download_unless_done_witness :
  fst (poll_status env_ok provisioned) <> Val true /\
  ((forall a,
      signal_at env_ok (tick (snd (poll_status env_ok provisioned)))
        (ScpGet "/tmp/aws_log.log" "." false) = Some a ->
      a <> "y" /\ a <> "Y") ->
   exists o,
     calls_of (trace (snd (poll_once env_ok provisioned))) =
       (calls_of (trace (snd (poll_status env_ok provisioned)))
        ++ [(ScpGet "/tmp/aws_log.log" "." false, o)])%list) /\
  (forall a,
      signal_at env_ok (tick (snd (poll_status env_ok provisioned)))
        (ScpGet "/tmp/aws_log.log" "." false) = Some a ->
      a = "y" \/ a = "Y" ->
      teardowns (snd (poll_once env_ok provisioned))
      = S (teardowns (snd (poll_status env_ok provisioned)))).
Proof.
  apply (log_download_unless_done env_ok provisioned (Val false)
           (snd (poll_once env_ok provisioned))).
  vm_compute. reflexivity.
Defined.

(** X17.  An exit confirmed at the prompt while the status request is
    being sent is lost: the handler tears everything down, the
    [SystemExit] it raises is caught by the bare [except] around the
    request, no request is sent, and the iteration goes on to the download
    of the log file and to the next round of the loop. *)
Theorem exit_confirmed_during_request_is_lost env w host a :
  ip_address (self w) = Some host ->
  signal_at env (tick w) (HttpGet ("http://" ++ host ++ ":8080")) = Some a ->
  a = "y" \/ a = "Y" ->
  exists w',
    poll_once env w = (Val false, w') /\
    S (teardowns w) <= teardowns w' /\
    gets w' = gets w /\
    log_count w' = log_count w.
Proof.
  intros Hip Hs Hy. apply lower_y in Hy.
  destruct (call_confirmed env _ w a Hs Hy) as (e & w1 & Hc & L & T).
  destruct (download_log_Val env w1) as (w2 & Hd & L2).
  exists w2. split.
  - unfold poll_once, poll_status, requests_get.
    unfold bind at 1, try_except, bind at 1, get_self.
    rewrite Hip. unfold str_operand, bind at 1, ret at 1.
    unfold bind at 1 2. rewrite Hc. cbv beta iota.
    unfold ret at 1. cbv beta iota.
    unfold bind. rewrite Hd. reflexivity.
  - destruct L as (_ & La & Lb & _), L2 as (_ & L2a & L2b & _).
    split; [| split; congruence].
    rewrite <- T. apply teardowns_extends.
    unfold download_log in Hd. revert Hd.
    apply (respects_try_except _ extends_trans);
      [apply extends_call | apply (respects_still _ extends_refl); reflexivity].
Qed.

Lemma exit_confirmed_during_request_is_lost_witness :
  exists w',
    poll_once env_exit_requested provisioned = (Val false, w') /\
    S (teardowns provisioned) <= teardowns w' /\
    gets w' = gets provisioned /\
    log_count w' = log_count provisioned.
Proof.
  apply (exit_confirmed_during_request_is_lost
           env_exit_requested provisioned "1.2.3.4" "y").
  - reflexivity.
  - reflexivity.
  - left. reflexivity.
Defined.

(** X18.  The same happens in the loop that waits for port 22: an exit
    confirmed at the prompt while the probe is being sent tears
    everything down once, but the bare [except] around the probe catches
    the [SystemExit], the probe counts as failed, and the loop goes on
    probing. *)
Theorem exit_confirmed_during_probe_is_lost env w host a :
  ip_address (self w) = Some host ->
  signal_at env (tick w) (SocketConnect host 22 1) = Some a ->
  a = "y" \/ a = "Y" ->
  exists w',
    probe_ssh env w = (Val false, w') /\
    teardowns w' = S (teardowns w) /\
    self w' = self w /\
    forall fuel,
      poll_ssh env (S fuel) w =
      (emit SocketClose ;; call_ env (Sleep 1) ;; poll_ssh env fuel) w'.
Proof.
  intros Hip Hs Hy. apply lower_y in Hy.
  destruct (call_confirmed env _ w a Hs Hy) as (e & w1 & Hc & L & T).
  assert (P : probe_ssh env w = (Val false, w1)).
  { unfold probe_ssh, try_except, bind at 1, get_self.
    rewrite Hip. unfold str_operand, bind at 1, ret at 1.
    unfold bind at 1. rewrite Hc. reflexivity. }
  exists w1. split; [exact P |]. split; [exact T |].
  split; [apply L |].
  intro fuel. cbn [poll_ssh]. unfold bind at 1. rewrite P. reflexivity.
Qed.

Lemma exit_confirmed_during_probe_is_lost_witness :
  exists w',
    probe_ssh env_exit_requested provisioned = (Val false, w') /\
    teardowns w' = S (teardowns provisioned) /\
    self w' = self provisioned /\
    forall fuel,
      poll_ssh env_exit_requested (S fuel) provisioned =
      (emit SocketClose ;; call_ env_exit_requested (Sleep 1) ;;
       poll_ssh env_exit_requested fuel) w'.
Proof.
  apply (exit_confirmed_during_probe_is_lost
           env_exit_requested provisioned "1.2.3.4" "y").
  - reflexivity.
  - reflexivity.
  - left. reflexivity.
Defined.

(** ** Exit requests that are declined *)

Lemma sim_bind A B (m1 m2 : M A) (k1 k2 : A -> M B) :
  simulates m1 m2 -> (forall a, simulates (k1 a) (k2 a)) ->
  simulates (bind m1 k1) (bind m2 k2).
Proof.
  intros Sm Sk w1 w2 R. unfold bind.
  destruct (Sm w1 w2 R) as [E R1].
  destruct (m1 w1) as [[a1 | e1 |] v1], (m2 w2) as [[a2 | e2 |] v2];
    cbn [fst snd] in E, R1; try discriminate E.
  - injection E as ->. apply Sk, R1.
  - injection E as ->. split; [reflexivity | exact R1].
  - split; [reflexivity | exact R1].
Qed.

Lemma sim_try_except A (b1 b2 h1 h2 : M A) :
  simulates b1 b2 -> simulates h1 h2 ->
  simulates (try_except b1 h1) (try_except b2 h2).
Proof.
  intros Sb Sh w1 w2 R. unfold try_except.
  destruct (Sb w1 w2 R) as [E R1].
  destruct (b1 w1) as [[a1 | e1 |] v1], (b2 w2) as [[a2 | e2 |] v2];
    cbn [fst snd] in E, R1; try discriminate E.
  - injection E as ->. split; [reflexivity | exact R1].
  - apply Sh, R1.
  - split; [reflexivity | exact R1].
Qed.

Lemma sim_try_except_Exception A (b1 b2 : M A) h1 h2 :
  simulates b1 b2 -> (forall e, simulates (h1 e) (h2 e)) ->
  simulates (try_except_Exception b1 h1) (try_except_Exception b2 h2).
Proof.
  intros Sb Sh w1 w2 R. unfold try_except_Exception.
  destruct (Sb w1 w2 R) as [E R1].
  destruct (b1 w1) as [[a1 | e1 |] v1], (b2 w2) as [[a2 | e2 |] v2];
    cbn [fst snd] in E, R1; try discriminate E.
  - injection E as ->. split; [reflexivity | exact R1].
  - injection E as ->. destruct (is_Exception e2).
    + apply Sh, R1.
    + split; [reflexivity | exact R1].
  - split; [reflexivity | exact R1].
Qed.

Lemma sim_try_finally A (b1 b2 : M A) f1 f2 :
  simulates b1 b2 -> simulates f1 f2 ->
  simulates (try_finally b1 f1) (try_finally b2 f2).
Proof.
  intros Sb Sf w1 w2 R. unfold try_finally.
  destruct (Sb w1 w2 R) as [E R1].
  destruct (b1 w1) as [[a1 | e1 |] v1], (b2 w2) as [[a2 | e2 |] v2];
    cbn [fst snd] in E, R1; try discriminate E.
  - injection E as ->. unfold bind, ret.
    destruct (Sf v1 v2 R1) as [E2 R2].
    destruct (f1 v1) as [[[] | e1 |] u1], (f2 v2) as [[[] | e2 |] u2];
      cbn [fst snd] in E2, R2; try discriminate E2;
      try (injection E2 as ->); split; try reflexivity; exact R2.
  - injection E as ->. unfold bind, raise.
    destruct (Sf v1 v2 R1) as [E2 R2].
    destruct (f1 v1) as [[[] | e1 |] u1], (f2 v2) as [[[] | e3 |] u2];
      cbn [fst snd] in E2, R2; try discriminate E2;
      try (injection E2 as ->); split; try reflexivity; exact R2.
  - split; [reflexivity | exact R1].
Qed.

(** A computation that reads nothing but the locals and records no
    prompt simulates itself. *)
Lemma sim_still A (r : res A) : simulates (fun w => (r, w)) (fun w => (r, w)).
Proof. intros w1 w2 R. split; [reflexivity | exact R]. Qed.

Lemma sim_get_self : simulates get_self get_self.
Proof.
  intros w1 w2 R. unfold get_self. cbn [fst snd].
  split; [f_equal; apply R | exact R].
Qed.

Lemma sim_get_log_count : simulates get_log_count get_log_count.
Proof.
  intros w1 w2 R. unfold get_log_count. cbn [fst snd].
  split; [f_equal; apply R | exact R].
Qed.

Lemma sim_set_self l : simulates (set_self l) (set_self l).
Proof.
  intros w1 w2 (R1 & R2 & R3 & R4 & R5). unfold set_self. cbn [fst snd].
  split; [reflexivity |]. unfold same_but_prompts.
  cbn [self log_count events tick gets]. auto.
Qed.

Lemma sim_set_log_count n : simulates (set_log_count n) (set_log_count n).
Proof.
  intros w1 w2 (R1 & R2 & R3 & R4 & R5). unfold set_log_count. cbn [fst snd].
  split; [reflexivity |]. unfold same_but_prompts.
  cbn [self log_count events tick gets]. auto.
Qed.

Lemma sim_emit e : simulates (emit e) (emit e).
Proof.
  intros w1 w2 (R1 & R2 & R3 & R4 & R5). unfold emit. cbn [fst snd].
  split; [reflexivity |]. unfold same_but_prompts, without_prompts.
  cbn [self log_count events tick gets filter].
  fold (without_prompts (events w1)). fold (without_prompts (events w2)).
  rewrite R5. auto.
Qed.

Lemma sim_raw_call env c :
  simulates (raw_call env c) (raw_call (silenced env) c).
Proof.
  intros w1 w2 (R1 & R2 & R3 & R4 & R5). unfold raw_call.
  cbn [outcome silenced]. rewrite R3.
  destruct (outcome env (tick w2) c); cbn [fst snd];
    (split; [reflexivity |]); unfold same_but_prompts, without_prompts;
    cbn [self log_count events tick gets filter is_input negb];
    fold (without_prompts (events w1)); fold (without_prompts (events w2));
    rewrite ?R3, R5; auto.
Qed.

Lemma sim_call env c :
  declined env -> simulates (call_ env c) (call_ (silenced env) c).
Proof.
  intros D w1 w2 R.
  change (call_ (silenced env) c w2) with (raw_call (silenced env) c w2).
  assert (E1 : exists v1, call_ env c w1 = raw_call env c v1 /\
                          same_but_prompts v1 w2).
  { unfold call_. destruct (signal_at env (tick w1) c) as [a |] eqn:Hs.
    - destruct (D _ _ _ Hs) as [N1 N2].
      assert (E : String.eqb (lower a) "y" = false).
      { destruct (String.eqb (lower a) "y") eqn:E; [| reflexivity].
        apply String.eqb_eq, lower_y in E. destruct E; contradiction. }
      unfold signal_term_handler, raw_input.
      unfold bind at 1 2 3, emit at 1, ret at 1. rewrite E.
      unfold ret at 1. eexists. split; [reflexivity |].
      destruct R as (R1 & R2 & R3 & R4 & R5). unfold same_but_prompts.
      cbn [self log_count events tick gets]. auto.
    - exists w1. split; [reflexivity | exact R]. }
  destruct E1 as (v1 & -> & R1). apply sim_raw_call, R1.
Qed.

Ltac sim_leaf D :=
  first [ apply sim_get_self | apply sim_get_log_count | apply sim_set_self
        | apply sim_set_log_count | apply sim_emit | apply sim_raw_call
        | apply sim_call; exact D ].

Ltac sim D :=
  repeat lazymatch goal with
    | |- simulates (bind _ _) (bind _ _) => apply sim_bind; [| intro]
    | |- simulates (try_except _ _) (try_except _ _) => apply sim_try_except
    | |- simulates (try_finally _ _) (try_finally _ _) =>
        apply sim_try_finally
    | |- simulates (try_except_Exception _ _) (try_except_Exception _ _) =>
        apply sim_try_except_Exception; [| intro]
    | |- simulates (ret _) (ret _) => apply sim_still
    | |- simulates (raise _) (raise _) => apply sim_still
    | |- simulates spin spin => apply sim_still
    | |- simulates (eval _) (eval _) => apply sim_still
    | |- simulates (attr ?o _) (attr ?o _) => destruct o; apply sim_still
    | |- simulates (str_operand ?o) (str_operand ?o) =>
        destruct o; apply sim_still
    | |- simulates (response_json ?o) (response_json ?o) =>
        destruct o; apply sim_still
    | |- simulates (if ?b then _ else _) (if ?b then _ else _) => destruct b
    | |- simulates (set_key _) (set_key _) => unfold set_key
    | |- simulates (set_security_group _) (set_security_group _) =>
        unfold set_security_group
    | |- simulates (set_instance _) (set_instance _) => unfold set_instance
    | |- simulates (set_ip_address _) (set_ip_address _) =>
        unfold set_ip_address
    | |- simulates (print _) (print _) => unfold print
    | |- simulates (enter _) (enter _) => unfold enter
    | |- _ => progress (sim_leaf D)
    end.

Lemma sim_setup env : declined env -> simulates (setup env) (setup (silenced env)).
Proof. intro D. unfold setup. cbn [new_key_material new_group_id new_instance_id public_ip silenced]. sim D. Qed.

Lemma sim_teardown env :
  declined env -> simulates (teardown env) (teardown (silenced env)).
Proof. intro D. unfold teardown, teardown_with. sim D. Qed.

Lemma sim_poll_ssh env fuel :
  declined env -> simulates (poll_ssh env fuel) (poll_ssh (silenced env) fuel).
Proof.
  intro D. induction fuel as [| fuel IH]; cbn [poll_ssh]; [sim D |].
  unfold probe_ssh. sim D. exact IH.
Qed.

Lemma sim_print_entries items :
  forall pos, simulates (print_entries pos items) (print_entries pos items).
Proof.
  induction items as [| x items IH]; intro pos; cbn [print_entries].
  - apply sim_still.
  - apply sim_bind; [apply sim_still | intro].
    apply sim_bind; [apply sim_emit | intro]. apply IH.
Qed.

Lemma sim_requests_get env url :
  declined env ->
  simulates (requests_get env url) (requests_get (silenced env) url).
Proof.
  intro D. unfold requests_get. apply sim_bind; [apply sim_call, D | intro].
  intros w1 w2 (R1 & R2 & R3 & R4 & R5). cbn [fst snd status silenced].
  rewrite R4. split; [reflexivity |]. unfold same_but_prompts.
  cbn [self log_count events tick gets]. auto.
Qed.

Lemma sim_poll_once env :
  declined env -> simulates (poll_once env) (poll_once (silenced env)).
Proof.
  intro D. unfold poll_once, poll_status, digest, download_log.
  sim D; first [apply sim_requests_get, D | apply sim_print_entries].
Qed.

Lemma sim_poll_logs env fuel :
  declined env ->
  simulates (poll_logs env fuel) (poll_logs (silenced env) fuel).
Proof.
  intro D. induction fuel as [| fuel IH]; cbn [poll_logs]; [sim D |].
  apply sim_bind; [apply sim_call, D | intro].
  apply sim_bind; [apply sim_poll_once, D | intros []].
  - apply sim_still.
  - exact IH.
Qed.

Lemma sim_deploy env fuel :
  declined env -> simulates (deploy env fuel) (deploy (silenced env) fuel).
Proof.
  intro D.
  unfold deploy, connect, with_scp, run_workload, download_results.
  sim D.
  - apply sim_poll_ssh, D.
  - apply sim_poll_logs, D.
Qed.

Lemma sim_main env fuel :
  declined env -> simulates (main env fuel) (main (silenced env) fuel).
Proof.
  intro D. unfold main, Launcher_init, install_handlers.
  cbn [now silenced]. sim D.
  - apply sim_setup, D.
  - apply sim_deploy, D.
  - apply sim_teardown, D.
Qed.

(** Without signals nothing is ever asked. *)

Lemma no_new_prompt_refl w : no_new_prompt w w.
Proof. reflexivity. Qed.

Lemma no_new_prompt_trans w1 w2 w3 :
  no_new_prompt w1 w2 -> no_new_prompt w2 w3 -> no_new_prompt w1 w3.
Proof. unfold no_new_prompt. congruence. Qed.

Lemma unprompted_emit e :
  is_input e = false -> respects no_new_prompt (emit e).
Proof.
  intros N w out w' H. injection H as <- <-. unfold no_new_prompt.
  cbn [events filter]. rewrite N. reflexivity.
Qed.

Lemma unprompted_set_self l : respects no_new_prompt (set_self l).
Proof. intros w out w' H. injection H as <- <-. reflexivity. Qed.

Lemma unprompted_set_log_count n : respects no_new_prompt (set_log_count n).
Proof. intros w out w' H. injection H as <- <-. reflexivity. Qed.

Lemma unprompted_raw_call env c : respects no_new_prompt (raw_call env c).
Proof. apply respects_raw_call. intros w o. reflexivity. Qed.

Lemma unprompted_call env c :
  quiet env -> respects no_new_prompt (call_ env c).
Proof.
  intros Q w out w' H. rewrite (call_quiet env c w Q) in H.
  revert H. apply unprompted_raw_call.
Qed.

Ltac unprompted Q :=
  respects_with no_new_prompt_refl no_new_prompt_trans
    ltac:(first [ apply unprompted_emit; reflexivity
                | apply unprompted_set_self
                | apply unprompted_set_log_count
                | apply unprompted_raw_call
                | apply unprompted_call; exact Q ]).

Lemma unprompted_poll_ssh env fuel :
  quiet env -> respects no_new_prompt (poll_ssh env fuel).
Proof.
  intro Q. induction fuel as [| fuel IH]; cbn [poll_ssh]; [unprompted Q |].
  unfold probe_ssh. unprompted Q. exact IH.
Qed.

Lemma unprompted_print_entries items :
  forall pos, respects no_new_prompt (print_entries pos items).
Proof.
  induction items as [| x items IH]; intro pos; cbn [print_entries].
  - apply (respects_still _ no_new_prompt_refl). reflexivity.
  - apply (respects_bind _ no_new_prompt_trans);
      [apply (respects_still _ no_new_prompt_refl); reflexivity | intro].
    apply (respects_bind _ no_new_prompt_trans);
      [apply unprompted_emit; reflexivity | intro].
    apply IH.
Qed.

Lemma unprompted_poll_once env :
  quiet env -> respects no_new_prompt (poll_once env).
Proof.
  intro Q. unfold poll_once, poll_status, requests_get, digest, download_log.
  unprompted Q; try apply unprompted_print_entries.
  intros w out w' H. injection H as <- <-. reflexivity.
Qed.

Lemma unprompted_poll_logs env fuel :
  quiet env -> respects no_new_prompt (poll_logs env fuel).
Proof.
  intro Q. induction fuel as [| fuel IH]; cbn [poll_logs]; [unprompted Q |].
  apply (respects_bind _ no_new_prompt_trans);
    [apply unprompted_call, Q | intros _].
  apply (respects_bind _ no_new_prompt_trans);
    [apply unprompted_poll_once, Q | intros []].
  - unprompted Q.
  - exact IH.
Qed.

Lemma unprompted_main env fuel :
  quiet env -> respects no_new_prompt (main env fuel).
Proof.
  intro Q.
  unfold main, Launcher_init, install_handlers, setup, deploy, connect,
    with_scp, run_workload, download_results, teardown, teardown_with.
  unprompted Q.
  - apply unprompted_poll_ssh, Q.
  - apply unprompted_poll_logs, Q.
Qed.

Lemma without_prompts_none l :
  filter is_input l = [] -> without_prompts l = l.
Proof.
  unfold without_prompts. induction l as [| e l IH]; [reflexivity |].
  cbn [filter]. destruct (is_input e); [discriminate |].
  intro H. cbn [negb]. rewrite (IH H). reflexivity.
Qed.

(** X19.  An exit request that is declined changes nothing: when every
    prompt of the handler is answered by something else than [y] or [Y],
    the script ends as it would have without the signals, and apart from
    the prompts it has made the same calls with the same outcomes and
    printed the same lines, in the same order. *)
Theorem declined_exit_requests_change_nothing env fuel :
  declined env ->
  fst (run env fuel) = fst (run (silenced env) fuel) /\
  without_prompts (trace (snd (run env fuel)))
  = trace (snd (run (silenced env) fuel)).
Proof.
  intro D.
  assert (R0 : same_but_prompts boot boot) by (repeat split).
  destruct (sim_main env fuel D boot boot R0) as [E (_ & _ & _ & _ & R)].
  split; [exact E |].
  unfold trace. rewrite without_prompts_rev. unfold run. rewrite R.
  f_equal. apply without_prompts_none.
  assert (Q : quiet (silenced env)) by (intros n c; reflexivity).
  destruct (main (silenced env) fuel boot) as [out w'] eqn:H.
  apply (unprompted_main _ _ Q) in H. exact H.
Qed.

Lemma declined_exit_requests_change_nothing_witness :
  fst (run env_declined 2) = fst (run (silenced env_declined) 2) /\
  without_prompts (trace (snd (run env_declined 2)))
  = trace (snd (run (silenced env_declined) 2)).
Proof.
  apply (declined_exit_requests_change_nothing env_declined 2).
  intros n c a H. injection H as <-. split; discriminate.
Defined.

(** ** Parts of the record that a piece of the program leaves alone *)

Section Views.

Context {X : Type} (view : list event -> X).

Lemma same_view_refl w : same_view view w w.
Proof. reflexivity. Qed.

Lemma same_view_trans w1 w2 w3 :
  same_view view w1 w2 -> same_view view w2 w3 -> same_view view w1 w3.
Proof. unfold same_view. congruence. Qed.

Lemma view_emit e :
  (forall l, view (e :: l) = view l) -> respects (same_view view) (emit e).
Proof. intros N w out w' H. injection H as <- <-. apply N. Qed.

Lemma view_set_self l : respects (same_view view) (set_self l).
Proof. intros w out w' H. injection H as <- <-. reflexivity. Qed.

Lemma view_set_log_count n : respects (same_view view) (set_log_count n).
Proof. intros w out w' H. injection H as <- <-. reflexivity. Qed.

Lemma view_raw_call env c :
  (forall o l, view (Call c o :: l) = view l) ->
  respects (same_view view) (raw_call env c).
Proof. intro N. apply respects_raw_call. intros w o. apply N. Qed.

Lemma view_call env c :
  (forall a, respects (same_view view)
               (signal_term_handler (teardown_with (raw_call env)) a)) ->
  (forall o l, view (Call c o :: l) = view l) ->
  respects (same_view view) (call_ env c).
Proof.
  intros Kh N w out w' H. unfold call_ in H.
  destruct (signal_at env (tick w) c) as [a |].
  - revert H. apply (respects_bind _ same_view_trans);
      [apply Kh | intro; apply view_raw_call, N].
  - revert H. apply view_raw_call, N.
Qed.

Lemma view_print_entries items :
  (forall pos line l, view (PrintEntry pos line :: l) = view l) ->
  forall pos, respects (same_view view) (print_entries pos items).
Proof.
  intro N. induction items as [| x items IH]; intro pos; cbn [print_entries].
  - apply (respects_still _ same_view_refl). reflexivity.
  - apply (respects_bind _ same_view_trans);
      [apply (respects_still _ same_view_refl); reflexivity | intro].
    apply (respects_bind _ same_view_trans);
      [apply view_emit; intro; apply N | intro].
    apply IH.
Qed.

End Views.

(** Decomposes a goal [respects (same_view view) m] for a [view] that
    computes; [K] deals with the handler. *)
Ltac unseen v K :=
  respects_with (same_view_refl v) (same_view_trans v)
    ltac:(first [ apply view_emit; intro; reflexivity
                | apply view_set_self
                | apply view_set_log_count
                | apply view_raw_call; intros; reflexivity
                | apply view_call; [exact K | intros; reflexivity]
                | apply view_print_entries; intros; reflexivity ]).

Ltac unseen_handler v :=
  intro; unfold signal_term_handler, teardown_with;
  respects_with (same_view_refl v) (same_view_trans v)
    ltac:(first [ apply view_emit; intro; reflexivity
                | apply view_raw_call; intros; reflexivity ]).

(** *** The SCP channel *)

Lemma scp_handler env a :
  respects (same_view (filter is_scp))
    (signal_term_handler (teardown_with (raw_call env)) a).
Proof. revert a. unseen_handler (filter is_scp). Qed.

Lemma scp_poll_ssh env fuel :
  respects (same_view (filter is_scp)) (poll_ssh env fuel).
Proof.
  induction fuel as [| fuel IH]; cbn [poll_ssh];
    [unseen (filter is_scp) (scp_handler env) |].
  unfold probe_ssh. unseen (filter is_scp) (scp_handler env). exact IH.
Qed.

Lemma scp_poll_once env :
  respects (same_view (filter is_scp)) (poll_once env).
Proof.
  unfold poll_once, poll_status, requests_get, digest, download_log.
  unseen (filter is_scp) (scp_handler env).
  intros w out w' H. injection H as <- <-. reflexivity.
Qed.

Lemma scp_poll_logs env fuel :
  respects (same_view (filter is_scp)) (poll_logs env fuel).
Proof.
  induction fuel as [| fuel IH]; cbn [poll_logs];
    [unseen (filter is_scp) (scp_handler env) |].
  apply (respects_bind _ (same_view_trans _));
    [unseen (filter is_scp) (scp_handler env) | intros _].
  apply (respects_bind _ (same_view_trans _));
    [apply scp_poll_once | intros []].
  - unseen (filter is_scp) (scp_handler env).
  - exact IH.
Qed.

Lemma scp_connect env fuel :
  respects (same_view (filter is_scp)) (connect env fuel).
Proof. unfold connect. unseen (filter is_scp) (scp_handler env). apply scp_poll_ssh. Qed.

Lemma scp_block env fuel :
  respects (same_view (filter is_scp))
    (run_workload env fuel ;; download_results env).
Proof.
  unfold run_workload, download_results. unseen (filter is_scp) (scp_handler env).
  apply scp_poll_logs.
Qed.

Lemma scp_open env w out w' :
  call_ env ScpOpen w = (out, w') ->
  out <> Spin /\
  exists o,
    (o = None <-> out = Val tt) /\
    (filter is_scp (events w') = filter is_scp (events w) \/
     filter is_scp (events w') = Call ScpOpen o :: filter is_scp (events w)) /\
    (out = Val tt ->
     filter is_scp (events w') = Call ScpOpen None :: filter is_scp (events w)).
Proof.
  intro H. split; [exact (proj2 (framed_call env ScpOpen _ _ _ H)) |].
  unfold call_ in H.
  assert (Raw : forall v r v',
             raw_call env ScpOpen v = (r, v') ->
             exists o, (o = None <-> r = Val tt) /\
               filter is_scp (events v') =
               Call ScpOpen o :: filter is_scp (events v)).
  { intros v r v' Hr. unfold raw_call in Hr.
    destruct (outcome env (tick v) ScpOpen) as [e |];
      injection Hr as <- <-; eexists; (split; [| reflexivity]);
      split; intro; congruence. }
  destruct (signal_at env (tick w) ScpOpen) as [a |].
  - unfold bind in H.
    destruct (signal_term_handler (teardown_with (raw_call env)) a w)
      as [[[] | e |] v] eqn:Hh; pose proof (scp_handler env a _ _ _ Hh) as S.
    + destruct (Raw _ _ _ H) as (o & Ho & E). exists o.
      unfold same_view in S. rewrite S in E.
      split; [exact Ho |]. split; [right; exact E |].
      intro V. apply Ho in V. subst o. exact E.
    + injection H as <- <-. exists (Some e).
      split; [split; intro; discriminate |].
      split; [left; exact S | intro; discriminate].
    + injection H as <- <-. exists (Some (Exn SystemExit "0")).
      split; [split; intro; discriminate |].
      split; [left; exact S | intro; discriminate].
  - destruct (Raw _ _ _ H) as (o & Ho & E). exists o.
    split; [exact Ho |]. split; [right; exact E |].
    intro V. apply Ho in V. subst o. exact E.
Qed.

(** X20.  The SCP channel does not leak.  Whenever [deploy] ends, be it
    by returning, by an exception or by an exit confirmed at the prompt,
    it has opened the channel at most once, and a channel that it opened
    it has closed: of the channel, the record of [deploy] shows nothing,
    or one opening that failed, or one opening followed by one close. *)
Theorem scp_channel_is_closed env fuel w out w' :
  deploy env fuel w = (out, w') ->
  out <> Spin ->
  exists x,
    filter is_scp (trace w') = (filter is_scp (trace w) ++ x)%list /\
    (x = [] \/ (exists e, x = [Call ScpOpen (Some e)]) \/
     x = [Call ScpOpen None; ScpClose]).
Proof.
  intros H N.
  assert (G : exists y,
             filter is_scp (events w') = (y ++ filter is_scp (events w))%list /\
             (y = [] \/ (exists e, y = [Call ScpOpen (Some e)]) \/
              y = [ScpClose; Call ScpOpen None])).
  { unfold deploy in H. unfold bind at 1 in H.
    destruct (connect env fuel w) as [[[] | e |] w1] eqn:Hc;
      pose proof (scp_connect env fuel _ _ _ Hc) as S1; unfold same_view in S1.
    - unfold with_scp in H. unfold bind at 1 in H.
      destruct (call_ env ScpOpen w1) as [[[] | e |] w2] eqn:Ho;
        destruct (scp_open env _ _ _ Ho) as (_ & o & Io & D & V).
      + specialize (V eq_refl). unfold try_finally in H.
        destruct ((run_workload env fuel ;; download_results env) w2)
          as [[[] | e |] w3] eqn:Hb;
          pose proof (scp_block env fuel _ _ _ Hb) as S3;
          unfold same_view in S3.
        * injection H as <- <-. exists [ScpClose; Call ScpOpen None].
          split; [| auto]. cbn [events filter is_scp app].
          rewrite S3, V, S1. reflexivity.
        * injection H as <- <-. exists [ScpClose; Call ScpOpen None].
          split; [| auto]. cbn [events filter is_scp app].
          rewrite S3, V, S1. reflexivity.
        * injection H as <- <-. contradiction.
      + injection H as <- <-. destruct D as [D | D].
        * exists []. split; [| auto]. rewrite D, S1. reflexivity.
        * destruct o as [e1 |].
          -- exists [Call ScpOpen (Some e1)]. split; [| eauto].
             rewrite D, S1. reflexivity.
          -- assert (X0 : Exc e = Val tt) by (apply Io; reflexivity).
             discriminate.
      + injection H as <- <-. contradiction.
    - injection H as <- <-. exists []. split; [| auto]. exact S1.
    - injection H as <- <-. contradiction. }
  destruct G as (y & E & C). exists (rev y). split.
  - unfold trace. rewrite !filter_rev, E, rev_app_distr. reflexivity.
  - destruct C as [-> | [[e ->] | ->]]; cbn [rev app]; eauto.
Qed.

Lemma scp_channel_is_closed_witness :
  exists x,
    filter is_scp (trace (snd (deploy env_ok 2 provisioned)))
    = (filter is_scp (trace provisioned) ++ x)%list /\
    (x = [] \/ (exists e, x = [Call ScpOpen (Some e)]) \/
     x = [Call ScpOpen None; ScpClose]).
Proof.
  apply (scp_channel_is_closed env_ok 2 provisioned (Val tt)).
  - vm_compute. reflexivity.
  - discriminate.
Defined.

(** ** A setup that fails *)

Lemma deploys_handler env a :
  respects (same_view (invocations Mdeploy))
    (signal_term_handler (teardown_with (raw_call env)) a).
Proof. revert a. unseen_handler (invocations Mdeploy). Qed.

Lemma deploys_setup env :
  respects (same_view (invocations Mdeploy)) (setup env).
Proof. unfold setup. unseen (invocations Mdeploy) (deploys_handler env). Qed.

Lemma deploys_teardown env :
  respects (same_view (invocations Mdeploy)) (teardown env).
Proof.
  unfold teardown, teardown_with.
  unseen (invocations Mdeploy) (deploys_handler env).
Qed.

Lemma framed_teardown env : framed (teardown env).
Proof. apply framed_teardown_with. intro c. apply framed_call. Qed.

(** X21.  A [setup] that fails with an exception of class [Exception]
    ends the work but not the script: the error is printed, [deploy] is
    not entered, and the script goes on to the [teardown] of the
    [finally] clause, whose result is the result of the run. *)
Theorem failed_setup_is_reported env fuel e w1 :
  outcome env 0 (Boto3Resource "ec2") = None ->
  setup env (started env) = (Exc e, w1) ->
  is_Exception e = true ->
  exists w2 out w',
    run env fuel = (out, w') /\
    teardown env w2 = (out, w') /\
    out <> Spin /\
    events w2 = Print "tearing down finally"
                :: Print ("Error - could not run: " ++ str_of_exn e)
                :: events w1 /\
    invocations Mdeploy (trace w') = 0.
Proof.
  intros Hb Hs He.
  pose proof (deploys_setup env _ _ _ Hs) as D1. unfold same_view in D1.
  set (w2 := {| self := self w1; log_count := log_count w1;
                events := Print "tearing down finally"
                          :: Print ("Error - could not run: " ++ str_of_exn e)
                          :: events w1;
                tick := tick w1; gets := gets w1 |}).
  destruct (teardown env w2) as [out w'] eqn:T.
  exists w2, out, w'.
  pose proof (deploys_teardown env _ _ _ T) as D2. unfold same_view in D2.
  pose proof (framed_teardown env _ _ _ T) as [_ N].
  assert (R : run env fuel = (out, w')).
  { set (w0 := {| self := self (started env); log_count := 0;
                  events := [Call (Boto3Resource "ec2") None];
                  tick := 1; gets := 0 |}).
    assert (E0 : Launcher_init env boot = (Val tt, w0)).
    { unfold Launcher_init, bind, get_self, set_self, raw_call.
      cbn [self log_count events tick gets boot]. rewrite Hb. reflexivity. }
    assert (E1 : install_handlers w0
                 = (Val tt,
                    {| self := self w0; log_count := 0;
                       events := InstallHandler SIGINT
                                 :: InstallHandler SIGTERM :: events w0;
                       tick := 1; gets := 0 |})) by reflexivity.
    unfold run, main.
    rewrite (bind_Val_intro _ _ _ _ _ _ _ E0).
    rewrite (bind_Val_intro _ _ _ _ _ _ _ E1).
    unfold try_finally, try_except_Exception.
    match goal with
    | |- context [(print "setting up" ;; ?k) ?x] =>
        assert (E2 : (print "setting up" ;; k) x = (Exc e, w1))
          by (unfold bind at 1; unfold print at 1, emit at 1;
              unfold bind at 1;
              match goal with
              | |- context [setup env ?y] => change y with (started env)
              end;
              rewrite Hs; reflexivity)
    end.
    rewrite E2. rewrite He. unfold print at 1, emit at 1.
    unfold bind at 1 2, print at 1, emit at 1.
    change (teardown env _) with (teardown env w2). rewrite T. destruct out as [[] | e1 |]; reflexivity. }
  split; [exact R |]. split; [exact T |]. split; [exact N |].
  split; [reflexivity |].
  unfold trace. rewrite invocations_rev, D2.
  unfold w2. cbn [events].
  change (invocations Mdeploy (events w1) = 0). rewrite D1. reflexivity.
Qed.

Lemma failed_setup_is_reported_witness :
  exists w2 out w',
    run env_no_group 1 = (out, w') /\
    teardown env_no_group w2 = (out, w') /\
    out <> Spin /\
    events w2 = Print "tearing down finally"
                :: Print ("Error - could not run: "
                          ++ str_of_exn
                               (Exn ClientError "SecurityGroupLimitExceeded"))
                :: events (snd (setup env_no_group (started env_no_group))) /\
    invocations Mdeploy (trace w') = 0.
Proof.
  apply (failed_setup_is_reported env_no_group 1
           (Exn ClientError "SecurityGroupLimitExceeded")
           (snd (setup env_no_group (started env_no_group)))).
  - reflexivity.
  - vm_compute. reflexivity.
  - reflexivity.
Defined.

(** ** Upload and start of the workload *)

(** X22.  Without signals, the work inside the [with] block stops at
    its first failure: when the upload fails nothing is executed on the
    instance, when the start of the script fails nothing is polled, and the
    instance is polled only after the upload and the start have both
    returned. *)
Theorem workload_stops_at_first_failure env fuel w r w' :
  quiet env ->
  run_workload env fuel w = (r, w') ->
  exists x,
    calls_of (trace w') = (calls_of (trace w) ++ x)%list /\
    ((exists e, r = Exc e /\ x = [(upload, Some e)]) \/
     (exists e, r = Exc e /\
                x = [(upload, None); (SshExec remote_command, Some e)]) \/
     (exists polls,
        x = (upload, None) :: (SshExec remote_command, None) :: polls)).
Proof.
  intros Q H. unfold run_workload in H.
  unfold bind at 1, print at 1, emit at 1 in H.
  unfold bind at 1 in H. rewrite (call_quiet env _ _ Q) in H.
  unfold raw_call at 1 in H. cbn [self log_count events tick gets] in H.
  fold upload in H.
  destruct (outcome env (tick w) upload) as [e |].
  { injection H as <- <-. exists [(upload, Some e)]. split; [| eauto].
    unfold trace. cbn [events rev]. rewrite !calls_of_app. cbn [calls_of].
    rewrite app_nil_r. reflexivity. }
  unfold bind at 1, print at 1, emit at 1 in H.
  unfold bind at 1 in H. rewrite (call_quiet env _ _ Q) in H.
  unfold raw_call at 1 in H. cbn [self log_count events tick gets] in H.
  destruct (outcome env (S (tick w)) (SshExec remote_command)) as [e |].
  { injection H as <- <-.
    exists [(upload, None); (SshExec remote_command, Some e)].
    split; [| eauto].
    unfold trace. cbn [events rev]. rewrite !calls_of_app. cbn [calls_of].
    rewrite !app_nil_r, <- !app_assoc. reflexivity. }
  unfold bind at 1, print at 1, emit at 1 in H.
  unfold bind at 1, set_log_count in H.
  cbn [self log_count events tick gets] in H.
  apply extends_poll_logs in H. destruct H as [l E]. cbn [events] in E.
  exists ((upload, None) :: (SshExec remote_command, None)
          :: calls_of (rev l)).
  split; [| eauto].
  unfold trace. rewrite E, rev_app_distr. cbn [rev].
  rewrite !calls_of_app. cbn [calls_of].
  rewrite !app_nil_r, <- !app_assoc. reflexivity.
Qed.

Lemma workload_stops_at_first_failure_witness :
  exists x,
    calls_of (trace (snd (run_workload env_upload_fails 1 provisioned)))
    = (calls_of (trace provisioned) ++ x)%list /\
    ((exists e,
        @Exc unit (Exn SCPException "scp: /tmp/: Permission denied") = Exc e /\
        x = [(upload, Some e)]) \/
     (exists e,
        @Exc unit (Exn SCPException "scp: /tmp/: Permission denied") = Exc e /\
        x = [(upload, None); (SshExec remote_command, Some e)]) \/
     (exists polls,
        x = (upload, None) :: (SshExec remote_command, None) :: polls)).
Proof.
  apply (workload_stops_at_first_failure env_upload_fails 1 provisioned).
  - intros n c. reflexivity.
  - vm_compute. reflexivity.
Defined.
